(** * LiveFleetView: the robot monitoring dashboard of [src/App.js]

    A shallow embedding of the one component of the repository: the
    derived (filtered) list, the colour function, the map gate and the
    table rows of the render, and the event handlers that drive the two
    state cells ([robots], [filter]), the push connection and its
    reconnect timers. *)

From Stdlib Require Import ZArith QArith String Ascii List Lia Bool.
From stdpp Require Import base list strings.
Import ListNotations.

Local Open Scope Z_scope.
Local Open Scope string_scope.
Local Open Scope list_scope.

(** ** JavaScript values as [JSON.parse] produces them

    Numbers are the finite numeric literals of a JSON text, read as
    rationals.  [VUndefined] is never parsed; it is what reading a
    missing property gives. *)

#[warnings="-register-all"] Inductive value : Type :=
  | VUndefined
  | VNull
  | VBool (b : bool)
  | VNum (q : Q)
  | VStr (s : string)
  | VArr (items : list value)
  | VObj (props : list (string * value)).

(** A Robot record of the backend.  [status] and [battery] have the
    types of the data model; [location] is whatever the payload carried,
    since the render itself inspects its shape. *)
Record Robot : Type := mkRobot {
  id : string;
  status : string;
  battery : Q;
  cpu : Q;
  ram : Q;
  location : value;
  last_updated : string
}.

(** ** Faults of the render *)

Inductive result (A : Type) : Type :=
  | Ok (a : A)
  | TypeError (msg : string).
Arguments Ok {A} a.
Arguments TypeError {A} msg.

#[global] Instance result_ret : MRet result := fun A a => Ok a.

#[global] Instance result_bind : MBind result := fun A B k r =>
  match r with
  | Ok a => k a
  | TypeError m => TypeError m
  end.

(** [xs.map(f)] with a callback that may throw: the first fault aborts
    the whole map. *)
Fixpoint array_map {A B} (f : A -> result B) (xs : list A) : result (list B) :=
  match xs with
  | [] => Ok []
  | x :: rest =>
      y ← f x;
      ys ← array_map f rest;
      Ok (y :: ys)
  end.

(** ** Number helpers *)

(** [a < b] on numbers. *)
Definition num_lt (a b : Q) : bool :=
  (Qnum a * Z.pos (Qden b) <? Qnum b * Z.pos (Qden a))%Z.

Definition twenty : Q := 20 # 1.

(** Decimal digits of a natural number, most significant first. *)
Definition digit (n : Z) : ascii := ascii_of_nat (48 + Z.to_nat n).

Fixpoint digits_fuel (fuel : nat) (n : Z) (acc : string) : string :=
  match fuel with
  | O => acc
  | S fuel' =>
      let acc' := String (digit (n mod 10)) acc in
      if (n / 10 =? 0)%Z then acc' else digits_fuel fuel' (n / 10) acc'
  end.

Definition digits (n : Z) : string :=
  digits_fuel (S (Z.to_nat (Z.log2 n))) n "".

(** [x.toFixed(2)]: the integer [n] nearest to [|x| * 100], the larger
    one on a tie, printed with two digits after the point and the sign
    of [x] in front.  (Below the 1e21 threshold of the exponent form.) *)
Definition toFixed2 (x : Q) : string :=
  let num := Z.abs (Qnum x) in
  let den := Z.pos (Qden x) in
  let n := (2 * 100 * num + den) / (2 * den) in
  let body :=
    String.append (digits (n / 100))
      (String "." (String (digit ((n / 10) mod 10)) (String (digit (n mod 10)) ""))) in
  if (Qnum x <? 0)%Z then String "-" body else body.

(** ** The derived list (App.js 60-67) *)

Definition filter_pred (filter : string) (robot : Robot) : bool :=
  if String.eqb filter "all" then true
  else if String.eqb filter "online" then String.eqb (status robot) "Online"
  else if String.eqb filter "offline" then String.eqb (status robot) "Offline"
  else if String.eqb filter "low-battery" then num_lt (battery robot) twenty
  else true.

Definition filteredRobots (robots : list Robot) (filter : string) : list Robot :=
  List.filter (filter_pred filter) robots.

(** ** Colour of a robot (App.js 70-74) *)

Definition getStatusColor (status : string) (battery : Q) : string :=
  if String.eqb status "Offline" then "red"
  else if num_lt battery twenty then "orange"
  else "green".

(** ** Marker icons (App.js 77-83) *)

Record DivIcon : Type := mkDivIcon {
  className : string;
  html : string;
  iconSize : Q * Q;
  iconAnchor : Q * Q
}.

(** The double quote of the template literal. *)
Definition dquote : string := String (ascii_of_nat 34) "".

Definition createCustomIcon (color : string) : DivIcon :=
  mkDivIcon "custom-marker"
    (String.concat ""
       ["<div style="; dquote; "background-color:"; color;
        "; width:15px; height:15px; border-radius:50%; border:2px solid black;";
        dquote; "></div>"])
    (15 # 1, 15 # 1)
    (15 # 2, 15 # 2).

(** ** Map markers (App.js 100-129) *)

(** [typeof v === "number"] *)
Definition is_number (v : value) : bool :=
  match v with VNum _ => true | _ => false end.

(** The location gate of the map: [Array.isArray] is the match on
    [VArr], followed by the three further conjuncts of the source. *)
Definition location_gate (loc : value) : bool :=
  match loc with
  | VArr items =>
      (length items =? 2)%nat &&
      is_number (nth 0 items VUndefined) &&
      is_number (nth 1 items VUndefined)
  | _ => false
  end.

Record Marker : Type := mkMarker {
  marker_key : string;
  marker_position : value;
  marker_color : string;       (* createCustomIcon(color) *)
  popup_id : string;
  popup_status : string;
  popup_battery : Q;
  popup_cpu : Q;
  popup_ram : Q
}.

(** The callback of the map's [filteredRobots.map]: a marker, or [null]. *)
Definition map_marker (robot : Robot) : option Marker :=
  if location_gate (location robot) then
    let color := getStatusColor (status robot) (battery robot) in
    Some (mkMarker (id robot) (location robot) color
                   (id robot) (status robot) (battery robot)
                   (cpu robot) (ram robot))
  else None.

Definition map_markers (shown : list Robot) : list (option Marker) :=
  List.map map_marker shown.

(** ** Table rows (App.js 146-174) *)

(** [v[i]] for a literal index [i]. *)
Definition get_index (v : value) (i : nat) : result value :=
  match v with
  | VNull => TypeError "Cannot read properties of null"
  | VUndefined => TypeError "Cannot read properties of undefined"
  | VArr items => Ok (nth i items VUndefined)
  | VStr s =>
      Ok (match String.get i s with
          | Some c => VStr (String c "")
          | None => VUndefined
          end)
  | VObj props =>
      Ok (match List.find (fun p => String.eqb (fst p) (digits (Z.of_nat i))) (rev props) with
          | Some p => snd p
          | None => VUndefined
          end)
  | VBool _ | VNum _ => Ok VUndefined
  end.

(** [v.toFixed(2)] *)
Definition call_toFixed2 (v : value) : result string :=
  match v with
  | VNum q => Ok (toFixed2 q)
  | VNull => TypeError "Cannot read properties of null"
  | VUndefined => TypeError "Cannot read properties of undefined"
  | _ => TypeError "toFixed is not a function"
  end.

Record Row : Type := mkRow {
  row_key : string;
  row_backgroundColor : string;
  row_dot_backgroundColor : string;
  row_id : string;
  row_battery : Q;
  row_cpu : Q;
  row_ram : Q;
  row_last_updated : string;   (* the timestamp handed to [Date] *)
  row_location : string * string
}.

(** The callback of the table's [filteredRobots.map]. *)
Definition table_row (robot : Robot) : result Row :=
  let bg := getStatusColor (status robot) (battery robot) in
  let dot := getStatusColor (status robot) (battery robot) in
  l0 ← get_index (location robot) 0;
  lat ← call_toFixed2 l0;
  l1 ← get_index (location robot) 1;
  lng ← call_toFixed2 l1;
  Ok (mkRow (id robot) bg dot (id robot) (battery robot) (cpu robot)
            (ram robot) (last_updated robot) (lat, lng)).

Definition table_rows (shown : list Robot) : result (list Row) :=
  array_map table_row shown.

(** What one render of the component hands to the screen. *)
Record View : Type := mkView {
  view_markers : list (option Marker);
  view_rows : list Row
}.

Definition render (robots : list Robot) (filter : string) : result View :=
  let shown := filteredRobots robots filter in
  let markers := map_markers shown in
  rows ← table_rows shown;
  Ok (mkView markers rows).

(** ** The component state and its environment

    The two [useState] cells, the [let socket] of the second effect, the
    [WebSocket] objects created so far (a connection is named by its
    position in [sockets]), the pending timeouts, and what the handlers
    sent to [alert], to the console and to [fetch]. *)

Definition BACKEND_URL : string := "https://robot-monitoring-backend-2.onrender.com".

(** [BACKEND_URL.replace("http", "ws")]: the first occurrence only,
    which is the scheme. *)
Definition updates_url : string := "wss://robot-monitoring-backend-2.onrender.com/updates".
Definition robots_url : string := String.append BACKEND_URL "/robots".

Inductive ReadyState : Type := CONNECTING | OPEN | CLOSING | CLOSED.

Record WebSocket : Type := mkWebSocket {
  ws_url : string;
  readyState : ReadyState;
  close_calls : nat            (* how often [close()] was invoked on it *)
}.

(** A pending [setTimeout(connectWebSocket, delay)]. *)
Record Timer : Type := mkTimer {
  timer_id : nat;
  timer_delay : Z;
  timer_due : Z
}.

Inductive Level : Type := LogLevel | ErrorLevel.

Record LogEntry : Type := mkLog {
  log_level : Level;
  log_text : string;
  log_detail : string
}.

Record State : Type := mkState {
  robots : list Robot;          (* useState([]) *)
  filter : string;              (* useState("all") *)
  socket : option nat;          (* let socket; *)
  sockets : list WebSocket;
  timers : list Timer;
  next_timer : nat;
  now : Z;                      (* milliseconds since mount *)
  fetch_requests : list string;
  fetch_pending : bool;
  alerts : list string;
  console : list LogEntry;
  mounted : bool
}.

Definition setRobots (data : list Robot) (s : State) : State :=
  mkState data (filter s) (socket s) (sockets s) (timers s) (next_timer s)
          (now s) (fetch_requests s) (fetch_pending s) (alerts s) (console s)
          (mounted s).

Definition setFilter (mode : string) (s : State) : State :=
  mkState (robots s) mode (socket s) (sockets s) (timers s) (next_timer s)
          (now s) (fetch_requests s) (fetch_pending s) (alerts s) (console s)
          (mounted s).

Definition alert (msg : string) (s : State) : State :=
  mkState (robots s) (filter s) (socket s) (sockets s) (timers s) (next_timer s)
          (now s) (fetch_requests s) (fetch_pending s) (alerts s ++ [msg])
          (console s) (mounted s).

Definition console_write (l : Level) (text detail : string) (s : State) : State :=
  mkState (robots s) (filter s) (socket s) (sockets s) (timers s) (next_timer s)
          (now s) (fetch_requests s) (fetch_pending s) (alerts s)
          (console s ++ [mkLog l text detail]) (mounted s).

(** [setTimeout(connectWebSocket, delay)] *)
Definition setTimeout (delay : Z) (s : State) : State :=
  mkState (robots s) (filter s) (socket s) (sockets s)
          (timers s ++ [mkTimer (next_timer s) delay (now s + delay)])
          (S (next_timer s))
          (now s) (fetch_requests s) (fetch_pending s) (alerts s) (console s)
          (mounted s).

Definition with_timers (ts : list Timer) (s : State) : State :=
  mkState (robots s) (filter s) (socket s) (sockets s) ts (next_timer s)
          (now s) (fetch_requests s) (fetch_pending s) (alerts s) (console s)
          (mounted s).

Definition with_sockets (ws : list WebSocket) (s : State) : State :=
  mkState (robots s) (filter s) (socket s) ws (timers s) (next_timer s)
          (now s) (fetch_requests s) (fetch_pending s) (alerts s) (console s)
          (mounted s).

(** [socket = new WebSocket(url)]: a fresh object, and the variable of
    the effect now refers to it; the object it referred to before is
    neither closed nor kept. *)
Definition new_WebSocket (url : string) (s : State) : State :=
  mkState (robots s) (filter s) (Some (length (sockets s)))
          (sockets s ++ [mkWebSocket url CONNECTING 0])
          (timers s) (next_timer s)
          (now s) (fetch_requests s) (fetch_pending s) (alerts s) (console s)
          (mounted s).

(** The call [fetch(url)] of [fetchRobots], up to its first [await]. *)
Definition fetch (url : string) (s : State) : State :=
  mkState (robots s) (filter s) (socket s) (sockets s) (timers s) (next_timer s)
          (now s) (fetch_requests s ++ [url]) true (alerts s) (console s)
          (mounted s).

Definition fetch_settled (s : State) : State :=
  mkState (robots s) (filter s) (socket s) (sockets s) (timers s) (next_timer s)
          (now s) (fetch_requests s) false (alerts s) (console s)
          (mounted s).

Definition advance (ms : Z) (s : State) : State :=
  mkState (robots s) (filter s) (socket s) (sockets s) (timers s) (next_timer s)
          (now s + Z.max 0 ms) (fetch_requests s) (fetch_pending s) (alerts s)
          (console s) (mounted s).

Definition unmounted (s : State) : State :=
  mkState (robots s) (filter s) (socket s) (sockets s) (timers s) (next_timer s)
          (now s) (fetch_requests s) (fetch_pending s) (alerts s) (console s)
          false.

(** ** The snapshot loader (App.js 13-26) *)

(** How the request of [fetchRobots] ends: the promise of [fetch]
    rejects, or a response arrives, whose body [response.json()] parses
    ([Some]) or not ([None]). *)
Inductive FetchOutcome : Type :=
  | Rejected (detail : string)
  | Response (ok : bool) (statusText : string) (body : option (list Robot)).

Definition fetch_failure_alert : string :=
  "Failed to fetch robot data. Please check if the backend is running.".

(** The [catch] block. *)
Definition fetchRobots_catch (detail : string) (s : State) : State :=
  alert fetch_failure_alert
    (console_write ErrorLevel "Error fetching robots:" detail s).

(** The body of [fetchRobots] after [await fetch(...)]. *)
Definition fetchRobots_resume (o : FetchOutcome) (s : State) : State :=
  match o with
  | Rejected detail => fetchRobots_catch detail s
  | Response false statusText _ =>
      fetchRobots_catch (String.append "Error: " statusText) s
  | Response true _ None => fetchRobots_catch "SyntaxError" s
  | Response true _ (Some data) => setRobots data s
  end.

(** ** The update channel (App.js 29-57) *)

Definition ws_failure_alert : string :=
  "WebSocket connection failed. Retrying in 5 seconds...".

Definition connectWebSocket (s : State) : State :=
  new_WebSocket updates_url s.

(** [socket.onmessage]; [None] is a text that [JSON.parse] rejects, so
    that the handler throws before it reaches [setRobots]. *)
Definition onmessage (data : option (list Robot)) (s : State) : State :=
  match data with
  | Some updatedRobots => setRobots updatedRobots s
  | None => s
  end.

Definition onerror (detail : string) (s : State) : State :=
  setTimeout 5000
    (alert ws_failure_alert
       (console_write ErrorLevel "WebSocket error:" detail s)).

Definition onclose (s : State) : State :=
  setTimeout 5000
    (console_write LogLevel "WebSocket closed. Reconnecting in 5 seconds..." "" s).

(** [ws.close()]: nothing on a connection already closing or closed;
    otherwise the closing handshake starts and the close event comes
    later, as an event of its own. *)
Definition ws_close (w : WebSocket) : WebSocket :=
  match readyState w with
  | CLOSING | CLOSED => mkWebSocket (ws_url w) (readyState w) (S (close_calls w))
  | CONNECTING | OPEN => mkWebSocket (ws_url w) CLOSING (S (close_calls w))
  end.

(** The cleanup of the effect: [if (socket) socket.close();] *)
Definition cleanup (s : State) : State :=
  match socket s with
  | Some sid =>
      match sockets s !! sid with
      | Some w => with_sockets (<[sid := ws_close w]> (sockets s)) s
      | None => s
      end
  | None => s
  end.

(** ** Mounting *)

Definition init : State :=
  mkState [] "all" None [] [] 0%nat 0 [] false [] [] true.

(** Both effects run once after the first render. *)
Definition mount : State := connectWebSocket (fetch robots_url init).

(** ** Events of the host and their dispatch *)

Inductive Event : Type :=
  | FetchSettles (o : FetchOutcome)
  | WsOpen (sid : nat)
  | WsMessage (sid : nat) (data : option (list Robot))
  | WsError (sid : nat) (detail : string)
  | WsClose (sid : nat)
  | Elapse (ms : Z)
  | TimerFires (tid : nat)
  | Click (mode : string)
  | Unmount.

Definition find_timer (tid : nat) (ts : list Timer) : option Timer :=
  List.find (fun t => (timer_id t =? tid)%nat) ts.

Definition remove_timer (tid : nat) (ts : list Timer) : list Timer :=
  List.filter (fun t => negb (timer_id t =? tid)%nat) ts.

Definition set_readyState (sid : nat) (r : ReadyState) (s : State) : State :=
  match sockets s !! sid with
  | Some w =>
      with_sockets (<[sid := mkWebSocket (ws_url w) r (close_calls w)]> (sockets s)) s
  | None => s
  end.

(** The ready state of connection [sid], if it was ever created. *)
Definition ready (s : State) (sid : nat) : option ReadyState :=
  readyState <$> sockets s !! sid.

(** One turn of the event loop.  The host delivers a message only on an
    open connection, an error or a close only on a connection whose close
    event has not been delivered yet, and runs a timeout only once it is
    due; every handler runs to completion. *)
Definition step (s : State) (e : Event) : State :=
  match e with
  | FetchSettles o =>
      if fetch_pending s then fetchRobots_resume o (fetch_settled s) else s
  | WsOpen sid =>
      match ready s sid with
      | Some CONNECTING => set_readyState sid OPEN s
      | _ => s
      end
  | WsMessage sid data =>
      match ready s sid with
      | Some OPEN => onmessage data s
      | _ => s
      end
  | WsError sid detail =>
      match ready s sid with
      | Some CLOSED | None => s
      | Some _ => onerror detail s
      end
  | WsClose sid =>
      match ready s sid with
      | Some CLOSED | None => s
      | Some _ => onclose (set_readyState sid CLOSED s)
      end
  | Elapse ms => advance ms s
  | TimerFires tid =>
      match find_timer tid (timers s) with
      | Some t =>
          if (timer_due t <=? now s)%Z
          then connectWebSocket (with_timers (remove_timer tid (timers s)) s)
          else s
      | None => s
      end
  | Click mode => if mounted s then setFilter mode s else s
  | Unmount => if mounted s then cleanup (unmounted s) else s
  end.

Definition run (s : State) (trace : list Event) : State :=
  fold_left step trace s.

(** ** Notions used by the statements *)

(** The list the render works on, as a function of the state. *)
Definition derived (s : State) : list Robot :=
  filteredRobots (robots s) (filter s).

(** The failures of the snapshot request: the promise rejects, or the
    response is not ok. *)
Definition fetch_failed (o : FetchOutcome) : bool :=
  match o with
  | Rejected _ => true
  | Response ok _ _ => negb ok
  end.

(** What the [catch] block logs for a failure. *)
Definition failure_detail (o : FetchOutcome) : string :=
  match o with
  | Rejected detail => detail
  | Response _ statusText _ => String.append "Error: " statusText
  end.

(** Events that carry a fleet: a push message, a snapshot that parsed. *)
Definition carries_fleet (e : Event) : bool :=
  match e with
  | WsMessage _ (Some _) => true
  | FetchSettles (Response true _ (Some _)) => true
  | _ => false
  end.

Definition fetch_alerts (s : State) : nat :=
  count_occ string_dec (alerts s) fetch_failure_alert.

(** Every pending timeout was numbered before the next one to come. *)
Definition timers_fresh (s : State) : Prop :=
  Forall (fun t => (timer_id t < next_timer s)%nat) (timers s).

(** Every pending timeout waits the same 5000 ms from when it was set. *)
Definition timers_fixed_delay (s : State) : Prop :=
  Forall (fun t => timer_delay t = 5000) (timers s).

(** One round of the reconnect loop on connection [k]: it closes, five
    seconds pass, the timeout it scheduled runs. *)
Definition retry (k : nat) : list Event :=
  [WsClose k; Elapse 5000; TimerFires k].

Fixpoint retries (n : nat) : list Event :=
  match n with
  | O => []
  | S k => retries k ++ retry k
  end.

(** The state between two rounds: connection [n] is the newest one and
    the one [socket] refers to, and no timeout is pending. *)
Definition between_retries (n : nat) (s : State) : Prop :=
  length (sockets s) = S n /\
  ready s n = Some CONNECTING /\
  socket s = Some n /\
  timers s = [] /\
  next_timer s = n.

(** The [icon] of a marker element (App.js 112). *)
Definition marker_icon (m : Marker) : DivIcon :=
  createCustomIcon (marker_color m).

(** The markers that reach the map: the children that are not [null]. *)
Definition plotted (shown : list Robot) : list Marker :=
  omap map_marker shown.

(** A location whose first two entries print with [toFixed]. *)
Definition prints_coordinates (loc : value) : Prop :=
  exists a b, get_index loc 0 = Ok (VNum a) /\ get_index loc 1 = Ok (VNum b).

(** The modes of the four buttons (App.js 91-94). *)
Definition button_modes : list string :=
  ["all"; "online"; "offline"; "low-battery"].

(** Events as the page can produce them: a click is a click on one of
    the four buttons. *)
Definition from_page (e : Event) : Prop :=
  match e with
  | Click mode => In mode button_modes
  | _ => True
  end.

Definition is_click (e : Event) : bool :=
  match e with Click _ => true | _ => false end.

(** The console lines of [onerror] and [onclose]. *)
Definition is_ws_entry (l : LogEntry) : bool :=
  String.eqb (log_text l) "WebSocket error:" ||
  String.eqb (log_text l) "WebSocket closed. Reconnecting in 5 seconds...".

Definition ws_logged (s : State) : nat :=
  length (List.filter is_ws_entry (console s)).

Definition is_ws_error_entry (l : LogEntry) : bool :=
  String.eqb (log_text l) "WebSocket error:".

Definition ws_errors_logged (s : State) : nat :=
  length (List.filter is_ws_error_entry (console s)).

Definition ws_alerts (s : State) : nat :=
  count_occ string_dec (alerts s) ws_failure_alert.

(** How often [close()] was called, over all connections. *)
Definition total_close_calls (s : State) : nat :=
  list_sum (List.map close_calls (sockets s)).

(** What holds of the connections in every state reached from mount:
    each one targets the update endpoint, [socket] refers to the newest
    one, and [close()] was called once if the view is gone and never if
    it is up. *)
Definition sockets_inv (s : State) : Prop :=
  Forall (fun w => ws_url w = updates_url) (sockets s) /\
  (0 < length (sockets s))%nat /\
  socket s = Some (length (sockets s) - 1)%nat /\
  total_close_calls s = (if mounted s then 0%nat else 1%nat).

(** What holds of the timeouts in every state reached from mount: the
    pending ones carry distinct numbers below the next number, one
    timeout was set per console line of [onerror] and [onclose], and
    every connection but the first took one timeout away. *)
Definition timers_inv (s : State) : Prop :=
  timers_fresh s /\
  List.NoDup (List.map timer_id (timers s)) /\
  next_timer s = ws_logged s /\
  (length (sockets s) + length (timers s) = S (next_timer s))%nat.

(** What holds of the alerts in every state reached from mount. *)
Definition alerts_inv (s : State) : Prop :=
  length (alerts s) = (ws_errors_logged s + fetch_alerts s)%nat /\
  (if fetch_pending s then fetch_alerts s = 0%nat else (fetch_alerts s <= 1)%nat).

(** ** Sample robots, fleets and traces *)

Definition r_low_offline : Robot :=
  mkRobot "r1" "Offline" (5 # 1) (10 # 1) (256 # 1)
          (VArr [VNum (1 # 1); VNum (2 # 1)]) "2024-01-01T00:00:00Z".

Definition r_online : Robot :=
  mkRobot "r2" "Online" (80 # 1) (10 # 1) (256 # 1)
          (VArr [VNum (1 # 1); VNum (2 # 1)]) "2024-01-01T00:00:00Z".

Definition r_replacement : Robot :=
  mkRobot "r3" "Online" (15 # 1) (40 # 1) (512 # 1) VNull "2024-01-01T00:00:05Z".

(** The robots of the map-omission property: same record, three
    malformed locations. *)
Definition r_located (loc : value) : Robot :=
  mkRobot "r1" "Online" (50 # 1) (10 # 1) (256 # 1) loc "2024-01-01T00:00:00Z".

Definition fleet_with_short_location : list Robot :=
  [r_online; r_located (VArr [VNum (1 # 1)])].

(** The connection closes while the view is up, and the view is torn
    down before the five seconds are over. *)
Definition closed_then_unmounted : State :=
  run mount [WsOpen 0%nat; WsClose 0%nat; Elapse 1000; Unmount].

(** The view is torn down on a healthy connection; the close event that
    the cleanup's [close()] brings about follows. *)
Definition unmounted_then_closed : State :=
  run mount [WsOpen 0%nat; Unmount; WsClose 0%nat].

(** Two connections are live (an error and a close reconnected twice)
    when the view is torn down. *)
Definition unmounted_with_two_live : State :=
  run mount [WsError 0%nat "failed"; WsClose 0%nat; Elapse 5000;
             TimerFires 0; TimerFires 1; WsOpen 1%nat; WsOpen 2%nat; Unmount].

Definition r1_online_low : Robot :=
  mkRobot "r1" "Online" (15 # 1) (10 # 1) (256 # 1)
          (VArr [VNum (1 # 1); VNum (2 # 1)]) "2024-01-01T00:00:00Z".

Definition r1_offline_low : Robot :=
  mkRobot "r1" "Offline" (15 # 1) (10 # 1) (256 # 1)
          (VArr [VNum (1 # 1); VNum (2 # 1)]) "2024-01-01T00:00:09Z".

(** The row colours of the table that a state renders. *)
Definition row_colors (s : State) : result (list string) :=
  v ← render (robots s) (filter s);
  Ok (List.map row_backgroundColor (view_rows v)).

(** * Properties *)

(** ** Printing coordinates *)

Example toFixed2_pi : toFixed2 (314159 # 100000) = "3.14".
Proof. reflexivity. Qed.
Example toFixed2_tie : toFixed2 (1 # 8) = "0.13".
Proof. reflexivity. Qed.
Example toFixed2_neg : toFixed2 (- 1 # 1000) = "-0.00".
Proof. reflexivity. Qed.
Example toFixed2_int : toFixed2 (12 # 1) = "12.00".
Proof. reflexivity. Qed.

(** ** Numbers *)

Lemma num_lt_spec (a b : Q) : num_lt a b = true <-> (a < b)%Q.
Proof. unfold num_lt, Qlt. apply Z.ltb_lt. Qed.

Lemma num_lt_false (a b : Q) : num_lt a b = false <-> ~ (a < b)%Q.
Proof.
  rewrite <- num_lt_spec. destruct (num_lt a b); split; congruence.
Qed.

(** ** The derived list *)

Section Derived.
Variable mode : string.

Lemma filteredRobots_In (rs : list Robot) (r : Robot) :
  In r (filteredRobots rs mode) <-> In r rs /\ filter_pred mode r = true.
Proof. unfold filteredRobots. apply filter_In. Qed.

Lemma filteredRobots_length (rs : list Robot) :
  (length (filteredRobots rs mode) <= length rs)%nat.
Proof. unfold filteredRobots. apply List.filter_length_le. Qed.

Lemma filteredRobots_idem (rs : list Robot) :
  filteredRobots (filteredRobots rs mode) mode = filteredRobots rs mode.
Proof.
  unfold filteredRobots. induction rs as [|r rs IH]; simpl; [reflexivity|].
  destruct (filter_pred mode r) eqn:E; simpl; [rewrite E, IH|]; auto.
Qed.

Lemma filteredRobots_sublist (rs : list Robot) :
  sublist (filteredRobots rs mode) rs.
Proof.
  unfold filteredRobots. induction rs as [|r rs IH]; simpl; [constructor|].
  destruct (filter_pred mode r); now constructor.
Qed.
End Derived.

Lemma filter_pred_all r : filter_pred "all" r = true.
Proof. reflexivity. Qed.

Lemma filter_pred_online r :
  filter_pred "online" r = true <-> status r = "Online".
Proof. unfold filter_pred; simpl. apply String.eqb_eq. Qed.

Lemma filter_pred_offline r :
  filter_pred "offline" r = true <-> status r = "Offline".
Proof. unfold filter_pred; simpl. apply String.eqb_eq. Qed.

Lemma filter_pred_low_battery r :
  filter_pred "low-battery" r = true <-> (battery r < twenty)%Q.
Proof. unfold filter_pred; simpl. apply num_lt_spec. Qed.

Lemma filter_pred_unknown mode r :
  mode <> "all" -> mode <> "online" -> mode <> "offline" ->
  mode <> "low-battery" -> filter_pred mode r = true.
Proof.
  intros H1 H2 H3 H4. unfold filter_pred.
  apply String.eqb_neq in H1, H2, H3, H4. now rewrite H1, H2, H3, H4.
Qed.

(** C4: a robot of FleetState is kept by the filter always in mode
    "all", exactly when its status is "Online" in mode "online", exactly
    when its status is "Offline" in mode "offline", exactly when its
    battery is below 20 in mode "low-battery" (whatever its status), and
    always in any other mode. *)
Theorem filter_keeps_iff (rs : list Robot) (r : Robot) (H : In r rs) :
  In r (filteredRobots rs "all") /\
  (In r (filteredRobots rs "online") <-> status r = "Online") /\
  (In r (filteredRobots rs "offline") <-> status r = "Offline") /\
  (In r (filteredRobots rs "low-battery") <-> (battery r < 20 # 1)%Q) /\
  (forall mode, mode <> "all" -> mode <> "online" -> mode <> "offline" ->
     mode <> "low-battery" -> In r (filteredRobots rs mode)).
Proof.
  repeat split; try intros K.
  - apply filteredRobots_In; auto using filter_pred_all.
  - apply filteredRobots_In in K. now apply filter_pred_online.
  - apply filteredRobots_In. split; [assumption | now apply filter_pred_online].
  - apply filteredRobots_In in K. now apply filter_pred_offline.
  - apply filteredRobots_In. split; [assumption | now apply filter_pred_offline].
  - apply filteredRobots_In in K. now apply filter_pred_low_battery.
  - apply filteredRobots_In. split; [assumption | now apply filter_pred_low_battery].
  - intros H1 H2 H3 H4. apply filteredRobots_In.
    split; [assumption | now apply filter_pred_unknown].
Qed.

Lemma filter_keeps_iff_witness :
  In r_low_offline (filteredRobots [r_online; r_low_offline] "low-battery") /\
  ~ In r_low_offline (filteredRobots [r_online; r_low_offline] "online").
Proof.
  pose proof (filter_keeps_iff [r_online; r_low_offline] r_low_offline
                (or_intror (or_introl eq_refl))) as (_ & Hon & _ & Hlow & _).
  split.
  - apply Hlow. reflexivity.
  - intros K. apply Hon in K. discriminate K.
Defined.

(** ** Colours *)

Lemma getStatusColor_offline b : getStatusColor "Offline" b = "red".
Proof. reflexivity. Qed.

Lemma map_marker_color r m :
  map_marker r = Some m ->
  marker_color m = getStatusColor (status r) (battery r).
Proof.
  unfold map_marker. destruct (location_gate (location r)); [|discriminate].
  intros [= <-]. reflexivity.
Qed.

(** A fault of a step of the row propagates; a row that is produced was
    built by the last line of [table_row]. *)
Lemma table_row_Ok r row :
  table_row r = Ok row ->
  exists lat lng,
    row = mkRow (id r) (getStatusColor (status r) (battery r))
                (getStatusColor (status r) (battery r)) (id r) (battery r)
                (cpu r) (ram r) (last_updated r) (lat, lng).
Proof.
  unfold table_row, mbind, result_bind.
  destruct (get_index (location r) 0) as [l0|]; [|discriminate].
  destruct (call_toFixed2 l0) as [lat|]; [|discriminate].
  destruct (get_index (location r) 1) as [l1|]; [|discriminate].
  destruct (call_toFixed2 l1) as [lng|]; [|discriminate].
  intros [= <-]. eauto.
Qed.

(** C5: the colour function tests the status first: status "Offline"
    gives red for every battery value and never orange; otherwise a
    battery below 20 gives orange, and anything else green.  The marker
    of the map and the row of the table (its background and its dot)
    both take their colour from this function. *)
Theorem status_color_precedence (st : string) (b : Q) :
  (st = "Offline" -> getStatusColor st b = "red" /\ getStatusColor st b <> "orange") /\
  (st <> "Offline" -> (b < 20 # 1)%Q -> getStatusColor st b = "orange") /\
  (st <> "Offline" -> ~ (b < 20 # 1)%Q -> getStatusColor st b = "green") /\
  (forall r m, map_marker r = Some m ->
     marker_color m = getStatusColor (status r) (battery r)) /\
  (forall r row, table_row r = Ok row ->
     row_backgroundColor row = getStatusColor (status r) (battery r) /\
     row_dot_backgroundColor row = getStatusColor (status r) (battery r)).
Proof.
  split; [|split; [|split; [|split]]].
  - intros ->. rewrite getStatusColor_offline. split; [reflexivity | discriminate].
  - intros Hst Hb. unfold getStatusColor.
    apply String.eqb_neq in Hst. rewrite Hst.
    apply num_lt_spec in Hb. unfold twenty. now rewrite Hb.
  - intros Hst Hb. unfold getStatusColor.
    apply String.eqb_neq in Hst. rewrite Hst.
    apply num_lt_false in Hb. unfold twenty. now rewrite Hb.
  - apply map_marker_color.
  - intros r row Hrow. apply table_row_Ok in Hrow as (lat & lng & ->).
    split; reflexivity.
Qed.

Lemma status_color_precedence_witness :
  getStatusColor "Offline" (5 # 1) = "red" /\
  getStatusColor "Offline" (5 # 1) <> "orange" /\
  getStatusColor "Online" (5 # 1) = "orange" /\
  getStatusColor "Online" (20 # 1) = "green".
Proof.
  split; [|split; [|split]].
  - apply (proj1 (status_color_precedence "Offline" (5 # 1))). reflexivity.
  - apply (proj1 (status_color_precedence "Offline" (5 # 1))). reflexivity.
  - apply (proj1 (proj2 (status_color_precedence "Online" (5 # 1)))).
    + discriminate.
    + reflexivity.
  - apply (proj1 (proj2 (proj2 (status_color_precedence "Online" (20 # 1))))).
    + discriminate.
    + intros K. discriminate K.
Defined.

(** ** Purity of the derivation *)

(** C9: the derived list depends on FleetState and FilterMode only, so
    that recomputing it from the same two gives the same list; filtering
    the derived list again with the same mode returns it unchanged; and
    the derivation leaves FleetState alone: the derived list is a
    sublist of it, and choosing a mode changes no robot. *)
Theorem derived_pure_idempotent :
  (forall s1 s2, robots s1 = robots s2 -> filter s1 = filter s2 ->
     derived s1 = derived s2) /\
  (forall rs mode,
     filteredRobots (filteredRobots rs mode) mode = filteredRobots rs mode) /\
  (forall rs mode, sublist (filteredRobots rs mode) rs) /\
  (forall s mode, robots (step s (Click mode)) = robots s).
Proof.
  split; [|split; [|split]].
  - intros s1 s2 Hr Hf. unfold derived. now rewrite Hr, Hf.
  - intros rs mode. apply filteredRobots_idem.
  - intros rs mode. apply filteredRobots_sublist.
  - intros s mode. simpl. destruct (mounted s); reflexivity.
Qed.

(** ** The map gate and the table *)

Lemma location_gate_spec (loc : value) :
  location_gate loc = true <-> exists a b, loc = VArr [VNum a; VNum b].
Proof.
  split.
  - destruct loc as [| | | | |items|]; simpl; try discriminate.
    destruct items as [|x [|y [|z rest]]]; simpl; try discriminate.
    destruct x; simpl; try discriminate.
    destruct y; simpl; try discriminate.
    eauto.
  - intros (a & b & ->). reflexivity.
Qed.


(** A location that passes the gate also renders in the table. *)
Lemma table_row_gate (r : Robot) :
  location_gate (location r) = true -> exists row, table_row r = Ok row.
Proof.
  intros (a & b & Hloc)%location_gate_spec.
  unfold table_row. rewrite Hloc. simpl. eauto.
Qed.

Lemma table_rows_length (shown : list Robot) (rows : list Row) :
  table_rows shown = Ok rows -> length rows = length shown.
Proof.
  unfold table_rows. revert rows.
  induction shown as [|r shown IH]; simpl; intros rows.
  - intros [= <-]. reflexivity.
  - unfold mbind, result_bind.
    destruct (table_row r) as [row|]; [|discriminate].
    destruct (array_map table_row shown) as [rows'|]; [|discriminate].
    intros [= <-]. simpl. f_equal. now apply IH.
Qed.

Lemma table_rows_gate (shown : list Robot) :
  Forall (fun r => location_gate (location r) = true) shown ->
  exists rows, table_rows shown = Ok rows /\ length rows = length shown.
Proof.
  intros Hall.
  assert (exists rows, table_rows shown = Ok rows) as [rows Hrows].
  { unfold table_rows. induction Hall as [|r shown Hr _ [rows IH]]; simpl.
    - eauto.
    - destruct (table_row_gate r Hr) as [row Hrow].
      unfold mbind, result_bind. rewrite Hrow, IH. eauto. }
  exists rows. split; [assumption | now apply table_rows_length].
Qed.

(** One fault among the rows is the fault of the whole table. *)
Lemma table_rows_fault (shown : list Robot) (r : Robot) (msg : string) :
  In r shown -> table_row r = TypeError msg ->
  exists msg', table_rows shown = TypeError msg'.
Proof.
  unfold table_rows. induction shown as [|x shown IH]; simpl; [tauto|].
  intros [->|Hin] Hr; unfold mbind, result_bind.
  - rewrite Hr. eauto.
  - destruct (table_row x); [|eauto].
    destruct (IH Hin Hr) as [msg' ->]. eauto.
Qed.

(** C6: the three robots with location [null], [[1]] and [["a","b"]]
    are left off the map, but the table row of each one faults in the
    coordinate cell, and with it the render of a fleet that holds one of
    them: the table has no guard where the map has one. *)
Theorem table_row_faults_where_map_omits :
  (map_marker (r_located VNull) = None /\
   table_row (r_located VNull) = TypeError "Cannot read properties of null") /\
  (map_marker (r_located (VArr [VNum (1 # 1)])) = None /\
   table_row (r_located (VArr [VNum (1 # 1)]))
     = TypeError "Cannot read properties of undefined") /\
  (map_marker (r_located (VArr [VStr "a"; VStr "b"])) = None /\
   table_row (r_located (VArr [VStr "a"; VStr "b"]))
     = TypeError "toFixed is not a function") /\
  render [r_located VNull] "all" = TypeError "Cannot read properties of null".
Proof. repeat split. Qed.

(** C8: with one robot whose location is [[1]] in a fleet of two, the
    derived list in mode "all" has two elements, yet the table faults
    and the render produces no row at all. *)
Theorem table_rows_fault_on_short_location :
  length (filteredRobots fleet_with_short_location "all") = 2%nat /\
  table_rows (filteredRobots fleet_with_short_location "all")
    = TypeError "Cannot read properties of undefined" /\
  render fleet_with_short_location "all"
    = TypeError "Cannot read properties of undefined".
Proof. repeat split. Qed.

(** ** Traces *)

Lemma run_app (s : State) (t1 t2 : list Event) :
  run s (t1 ++ t2) = run (run s t1) t2.
Proof. unfold run. apply fold_left_app. Qed.

Lemma run_cons (s : State) (e : Event) (t : list Event) :
  run s (e :: t) = run (step s e) t.
Proof. reflexivity. Qed.

(** An invariant of [step] holds along every trace. *)
Lemma run_invariant (P : State -> Prop) :
  (forall s e, P s -> P (step s e)) ->
  forall t s, P s -> P (run s t).
Proof.
  intros Hstep t. induction t as [|e t IH]; intros s Hs; [exact Hs|].
  rewrite run_cons. apply IH, Hstep, Hs.
Qed.

(** Case analysis on the guards of one [step]. *)
Ltac step_cases :=
  unfold step, ready, set_readyState, cleanup, onmessage, fetchRobots_resume;
  repeat match goal with
         | |- context [match ?x with _ => _ end] => destruct x eqn:?; simpl
         end.

(** ** Push messages *)

Lemma step_message_open (s : State) (sid : nat) (data : list Robot) :
  ready s sid = Some OPEN ->
  step s (WsMessage sid (Some data)) = setRobots data s.
Proof. intros H. simpl. now rewrite H. Qed.

(** C1: a push message delivered on an open connection installs its
    robots as the new FleetState, whatever the prior FleetState was: the
    new list is the message's list, it has the message's length, and
    when the ids of the message are disjoint from the prior ids, no
    prior id is left. *)
Theorem push_replaces_fleet
    (s : State) (sid : nat) (data : list Robot)
    (Hopen : ready s sid = Some OPEN)
    (Hdisjoint : forall r r', In r (robots s) -> In r' data -> id r <> id r') :
  let s' := step s (WsMessage sid (Some data)) in
  robots s' = data /\
  length (robots s') = length data /\
  (forall r r', In r (robots s) -> In r' (robots s') -> id r' <> id r).
Proof.
  intros s'. subst s'. rewrite step_message_open by assumption. simpl.
  repeat split. intros r r' Hr Hr' Heq. now apply (Hdisjoint r r').
Qed.

Lemma push_replaces_fleet_witness :
  let s := run mount [WsOpen 0%nat;
                      FetchSettles (Response true "OK" (Some [r_online; r_low_offline]))] in
  robots s = [r_online; r_low_offline] /\
  robots (step s (WsMessage 0%nat (Some [r_replacement])))
    = [r_replacement].
Proof.
  split; [reflexivity|].
  refine (proj1 (push_replaces_fleet _ 0%nat [r_replacement] _ _)).
  - reflexivity.
  - simpl. intros r r' [<-|[<-|[]]] [<-|[]]; discriminate.
Defined.

(** ** The snapshot loader *)

Lemma step_fetch_requests (s : State) (e : Event) :
  fetch_requests (step s e) = fetch_requests s.
Proof. destruct e; step_cases; reflexivity. Qed.

Lemma run_fetch_requests (t : list Event) (s : State) :
  fetch_requests (run s t) = fetch_requests s.
Proof.
  revert s. induction t as [|e t IH]; intros s; [reflexivity|].
  rewrite run_cons, IH. apply step_fetch_requests.
Qed.

Lemma count_occ_snoc_ne (l : list string) (x y : string) :
  x <> y -> count_occ string_dec (l ++ [x]) y = count_occ string_dec l y.
Proof.
  intros Hne. rewrite count_occ_app. simpl.
  destruct (string_dec x y); [contradiction | lia].
Qed.

(** Once the request has settled, nothing brings it back and the
    loader never alerts again. *)
Lemma step_settled (s : State) (e : Event) :
  fetch_pending s = false ->
  fetch_pending (step s e) = false /\ fetch_alerts (step s e) = fetch_alerts s.
Proof.
  intros Hp. unfold fetch_alerts.
  destruct e; step_cases; simpl; try (split; [assumption | reflexivity]);
    try congruence;
    (split; [assumption | now apply count_occ_snoc_ne]).
Qed.

Lemma run_settled (t : list Event) (s : State) :
  fetch_pending s = false ->
  fetch_pending (run s t) = false /\ fetch_alerts (run s t) = fetch_alerts s.
Proof.
  revert s. induction t as [|e t IH]; intros s Hp; [split; [assumption|reflexivity]|].
  rewrite run_cons. destruct (step_settled s e Hp) as [Hp' Ha].
  destruct (IH _ Hp') as [Hp'' Ha']. split; [assumption | congruence].
Qed.

Lemma step_no_fleet (s : State) (e : Event) :
  carries_fleet e = false -> robots (step s e) = robots s.
Proof. destruct e; step_cases; simpl; try reflexivity; discriminate. Qed.

Lemma run_no_fleet (t : list Event) (s : State) :
  forallb (fun e => negb (carries_fleet e)) t = true ->
  robots (run s t) = robots s.
Proof.
  revert s. induction t as [|e t IH]; intros s Hq; [reflexivity|].
  simpl in Hq. apply andb_prop in Hq as [He Ht].
  rewrite run_cons, IH by assumption.
  apply step_no_fleet. now destruct (carries_fleet e).
Qed.

(** C7: when the pending snapshot request fails (rejected promise or a
    response that is not ok), FleetState is unchanged, exactly one alert
    with the fixed text is raised, the detail of the failure goes to the
    console only, and no request is issued, then or at any later event;
    the loader never alerts a second time.  And along every trace from
    mount in which no event carries a fleet (no push message, no
    snapshot that succeeded) FleetState is still empty. *)
Theorem snapshot_failure
    (s : State) (o : FetchOutcome)
    (Hpending : fetch_pending s = true) (Hfail : fetch_failed o = true) :
  let s' := step s (FetchSettles o) in
  robots s' = robots s /\
  alerts s' = alerts s ++ [fetch_failure_alert] /\
  console s' = console s ++
    [mkLog ErrorLevel "Error fetching robots:" (failure_detail o)] /\
  fetch_requests s' = fetch_requests s /\
  (forall t, fetch_requests (run s' t) = fetch_requests s /\
             fetch_alerts (run s' t) = S (fetch_alerts s)) /\
  (forall t, forallb (fun e => negb (carries_fleet e)) t = true ->
             robots (run mount t) = []).
Proof.
  intros s'.
  assert (Hs' : s' = fetchRobots_catch (failure_detail o) (fetch_settled s)).
  { subst s'. simpl. rewrite Hpending.
    destruct o as [detail | [|] statusText body]; try discriminate; reflexivity. }
  rewrite Hs'. simpl.
  split; [reflexivity|]. split; [reflexivity|]. split; [reflexivity|].
  split; [reflexivity|]. split.
  - intros t. split.
    + now rewrite run_fetch_requests.
    + rewrite (proj2 (run_settled t
                 (fetchRobots_catch (failure_detail o) (fetch_settled s)) eq_refl)).
      unfold fetch_alerts. simpl.
      rewrite count_occ_app. simpl.
      destruct (string_dec fetch_failure_alert fetch_failure_alert); [lia | contradiction].
  - intros t Hq. now rewrite run_no_fleet.
Qed.

Lemma snapshot_failure_witness :
  let s' := step mount (FetchSettles (Response false "Service Unavailable" None)) in
  robots s' = [] /\
  alerts s' = [fetch_failure_alert] /\
  fetch_requests s' = [robots_url].
Proof.
  pose proof (snapshot_failure mount
                (Response false "Service Unavailable" None) eq_refl eq_refl)
    as (Hr & Ha & _ & Hf & _).
  split; [exact Hr|]. split; [exact Ha | exact Hf].
Defined.

(** ** Timers *)

Lemma find_timer_fresh (ts rest : list Timer) (t : Timer) (n : nat) :
  Forall (fun t => (timer_id t < n)%nat) ts -> timer_id t = n ->
  find_timer n (ts ++ t :: rest) = Some t.
Proof.
  intros Hts Ht. unfold find_timer.
  induction Hts as [|x ts Hx _ IH]; simpl.
  - rewrite Ht, Nat.eqb_refl. reflexivity.
  - destruct (Nat.eqb_spec (timer_id x) n); [lia | exact IH].
Qed.

Lemma remove_timer_fresh (ts : list Timer) (n : nat) :
  Forall (fun t => (timer_id t < n)%nat) ts -> remove_timer n ts = ts.
Proof.
  intros Hts. unfold remove_timer.
  induction Hts as [|x ts Hx _ IH]; simpl; [reflexivity|].
  destruct (Nat.eqb_spec (timer_id x) n); [lia|]. simpl. now rewrite IH.
Qed.

Lemma remove_timer_app (ts1 ts2 : list Timer) (n : nat) :
  remove_timer n (ts1 ++ ts2) = remove_timer n ts1 ++ remove_timer n ts2.
Proof. unfold remove_timer. apply List.filter_app. Qed.

Lemma remove_timer_Forall (P : Timer -> Prop) (ts : list Timer) (n : nat) :
  Forall P ts -> Forall P (remove_timer n ts).
Proof.
  intros H. unfold remove_timer. induction H as [|x ts Hx _ IH]; simpl.
  - constructor.
  - destruct (negb (timer_id x =? n)%nat); [constructor|]; assumption.
Qed.

Lemma Forall_snoc_timer (P : Timer -> Prop) (ts : list Timer) (t : Timer) :
  Forall P ts -> P t -> Forall P (ts ++ [t]).
Proof. intros H Ht. apply Forall_app. split; [assumption | now constructor]. Qed.

Lemma step_timers_fresh (s : State) (e : Event) :
  timers_fresh s -> timers_fresh (step s e).
Proof.
  unfold timers_fresh. intros H.
  assert (Hw : Forall (fun t => (timer_id t < S (next_timer s))%nat) (timers s)).
  { eapply Forall_impl; [exact H|]. simpl. intros t Ht. lia. }
  destruct e; step_cases; simpl; try assumption;
    try (apply Forall_snoc_timer; [assumption | simpl; lia]).
  now apply remove_timer_Forall.
Qed.

Lemma step_timers_fixed_delay (s : State) (e : Event) :
  timers_fixed_delay s -> timers_fixed_delay (step s e).
Proof.
  unfold timers_fixed_delay. intros H.
  destruct e; step_cases; simpl; try assumption;
    try (apply Forall_snoc_timer; [assumption | reflexivity]).
  now apply remove_timer_Forall.
Qed.

Lemma reachable_timers_fresh (t : list Event) : timers_fresh (run mount t).
Proof.
  apply run_invariant; [exact step_timers_fresh | constructor].
Qed.

Lemma reachable_timers_fixed_delay (t : list Event) :
  timers_fixed_delay (run mount t).
Proof.
  apply run_invariant; [exact step_timers_fixed_delay | constructor].
Qed.

(** ** Handlers of the connection *)

Lemma ready_set_readyState_length (s : State) (sid : nat) (r : ReadyState) :
  length (sockets (set_readyState sid r s)) = length (sockets s).
Proof.
  unfold set_readyState. destruct (sockets s !! sid); simpl; [|reflexivity].
  apply length_insert.
Qed.

Lemma step_close_live (s : State) (sid : nat) (r : ReadyState) :
  ready s sid = Some r -> r <> CLOSED ->
  step s (WsClose sid) = onclose (set_readyState sid CLOSED s).
Proof. intros H Hr. simpl. rewrite H. destruct r; congruence. Qed.

Lemma step_error_live (s : State) (sid : nat) (r : ReadyState) (detail : string) :
  ready s sid = Some r -> r <> CLOSED ->
  step s (WsError sid detail) = onerror detail s.
Proof. intros H Hr. simpl. rewrite H. destruct r; congruence. Qed.

(** Running a due timeout: the connection it creates is the next one. *)
Lemma step_timer_due (s : State) (t : Timer) :
  find_timer (timer_id t) (timers s) = Some t ->
  timer_due t <= now s ->
  step s (TimerFires (timer_id t)) =
    connectWebSocket (with_timers (remove_timer (timer_id t) (timers s)) s).
Proof.
  intros Hfind Hdue. simpl. rewrite Hfind.
  apply Z.leb_le in Hdue. now rewrite Hdue.
Qed.

(** A timeout is not run before it is due. *)
Lemma step_timer_early (s : State) (t : Timer) :
  find_timer (timer_id t) (timers s) = Some t ->
  now s < timer_due t ->
  step s (TimerFires (timer_id t)) = s.
Proof.
  intros Hfind Hdue. simpl. rewrite Hfind.
  apply Z.leb_gt in Hdue. now rewrite Hdue.
Qed.

(** ** Reconnection *)

Lemma onclose_fields (s : State) (sid : nat) :
  let s1 := onclose (set_readyState sid CLOSED s) in
  timers s1 = timers s ++ [mkTimer (next_timer s) 5000 (now s + 5000)] /\
  next_timer s1 = S (next_timer s) /\
  now s1 = now s /\
  socket s1 = socket s /\
  length (sockets s1) = length (sockets s).
Proof.
  simpl. rewrite ready_set_readyState_length.
  unfold set_readyState. destruct (sockets s !! sid); repeat split.
Qed.

Lemma retry_round (n : nat) (s : State) :
  between_retries n s -> between_retries (S n) (run s (retry n)).
Proof.
  intros (Hlen & Hready & Hsock & Htimers & Hnext).
  unfold retry. rewrite !run_cons.
  rewrite (step_close_live s n CONNECTING) by (assumption || discriminate).
  destruct (onclose_fields s n) as (Ht1 & Hn1 & Hnow1 & Hs1 & Hl1).
  remember (onclose (set_readyState n CLOSED s)) as s1 eqn:Es1. clear Es1.
  rewrite Htimers, Hnext in Ht1. simpl in Ht1.
  assert (Hfire : step (step s1 (Elapse 5000)) (TimerFires n) =
            connectWebSocket (with_timers [] (advance 5000 s1))).
  { simpl. rewrite Ht1. simpl. rewrite Nat.eqb_refl.
    match goal with
    | |- context [(?a <=? ?b)%Z] =>
        replace (a <=? b)%Z with true
          by (symmetry; apply Z.leb_le; cbn [timer_due]; lia)
    end.
    reflexivity. }
  rewrite Hfire. unfold between_retries, ready, run. simpl.
  rewrite Hl1, Hlen, Hn1, Hnext. repeat split.
  - rewrite length_app, Hl1, Hlen. simpl. lia.
  - rewrite lookup_app_r by lia. rewrite Hl1, Hlen, Nat.sub_diag. reflexivity.
Qed.

Lemma mount_between_retries : between_retries 0 mount.
Proof. repeat split. Qed.

Lemma retries_between (n : nat) : between_retries n (run mount (retries n)).
Proof.
  induction n as [|n IH]; simpl.
  - exact mount_between_retries.
  - rewrite run_app. now apply retry_round.
Qed.

(** C3: the close event of a connection that has not been closed yet
    schedules exactly one timeout, due 5000 ms later, and creates no
    connection by itself; every timeout pending in a reachable state has
    that same delay of 5000 ms; and the loop has no last round: after
    [n] rounds of close, wait and reconnect there are [n + 1]
    connections, the newest one connecting. *)
Theorem close_schedules_one_reconnect
    (s : State) (sid : nat) (r : ReadyState)
    (Hlive : ready s sid = Some r) (Hr : r <> CLOSED) :
  let s' := step s (WsClose sid) in
  timers s' = timers s ++ [mkTimer (next_timer s) 5000 (now s + 5000)] /\
  length (sockets s') = length (sockets s) /\
  (forall t, timers_fixed_delay (run mount t)) /\
  (forall n, length (sockets (run mount (retries n))) = S n /\
             ready (run mount (retries n)) n = Some CONNECTING /\
             socket (run mount (retries n)) = Some n).
Proof.
  intros s'. subst s'. rewrite (step_close_live s sid r) by assumption.
  split; [|split; [|split]].
  - unfold set_readyState. simpl.
    destruct (sockets s !! sid); reflexivity.
  - simpl. apply ready_set_readyState_length.
  - exact reachable_timers_fixed_delay.
  - intros n. destruct (retries_between n) as (H1 & H2 & H3 & _).
    auto.
Qed.

Lemma close_schedules_one_reconnect_witness :
  timers (step mount (WsClose 0%nat)) = [mkTimer 0 5000 5000] /\
  length (sockets (run mount (retries 3))) = 4%nat.
Proof.
  pose proof (close_schedules_one_reconnect mount 0%nat CONNECTING eq_refl
                ltac:(discriminate)) as (Ht & _ & _ & Hn).
  split; [exact Ht | exact (proj1 (Hn 3%nat))].
Defined.

(** ** An error followed by a close *)

Lemma onerror_fields (s : State) (detail : string) :
  let s1 := onerror detail s in
  timers s1 = timers s ++ [mkTimer (next_timer s) 5000 (now s + 5000)] /\
  next_timer s1 = S (next_timer s) /\
  now s1 = now s /\
  sockets s1 = sockets s /\
  alerts s1 = alerts s ++ [ws_failure_alert].
Proof. repeat split. Qed.

Lemma onclose_alerts (s : State) (sid : nat) :
  alerts (onclose (set_readyState sid CLOSED s)) = alerts s.
Proof.
  unfold set_readyState. destruct (sockets s !! sid); reflexivity.
Qed.

(** Running the due timeout [t], found among the pending ones behind
    timeouts numbered before it. *)
Lemma fire_behind_fresh (s : State) (ts rest : list Timer) (t : Timer) :
  timers s = ts ++ t :: rest ->
  Forall (fun x => (timer_id x < timer_id t)%nat) ts ->
  timer_due t <= now s ->
  step s (TimerFires (timer_id t)) =
    connectWebSocket (with_timers (ts ++ remove_timer (timer_id t) rest) s).
Proof.
  intros Hts Hfresh Hdue.
  rewrite (step_timer_due s t).
  - rewrite Hts, remove_timer_app, remove_timer_fresh by assumption.
    unfold remove_timer at 1. simpl. now rewrite Nat.eqb_refl.
  - rewrite Hts. now apply find_timer_fresh.
  - assumption.
Qed.

(** C10: when the error event and then the close event of one
    connection are delivered, each handler sets its own timeout of
    5000 ms, so that two timeouts are pending for the one failure (and
    one alert was raised); once both have run, two new connections
    exist, and [socket] refers to the second of them only. *)
Theorem error_then_close_reconnects_twice
    (s : State) (sid : nat) (r : ReadyState) (detail : string)
    (Hfresh : timers_fresh s)
    (Hlive : ready s sid = Some r) (Hr : r <> CLOSED) :
  let n := next_timer s in
  let s2 := run s [WsError sid detail; WsClose sid] in
  let s3 := run s2 [Elapse 5000; TimerFires n; TimerFires (S n)] in
  timers s2 = timers s ++ [mkTimer n 5000 (now s + 5000);
                           mkTimer (S n) 5000 (now s + 5000)] /\
  alerts s2 = alerts s ++ [ws_failure_alert] /\
  length (sockets s2) = length (sockets s) /\
  length (sockets s3) = (length (sockets s) + 2)%nat /\
  ready s3 (length (sockets s)) = Some CONNECTING /\
  ready s3 (S (length (sockets s))) = Some CONNECTING /\
  socket s3 = Some (S (length (sockets s))) /\
  timers s3 = timers s.
Proof.
  intros n s2 s3.
  assert (E2 : s2 = onclose (set_readyState sid CLOSED (onerror detail s))).
  { subst s2. unfold run. cbn [fold_left].
    rewrite (step_error_live s sid r) by assumption.
    now rewrite (step_close_live (onerror detail s) sid r). }
  destruct (onclose_fields (onerror detail s) sid) as (Ht2 & Hn2 & Hnow2 & _ & Hl2).
  pose proof (onclose_alerts (onerror detail s) sid) as Ha2.
  rewrite <- E2 in Ht2, Hn2, Hnow2, Hl2, Ha2.
  cbn [onerror setTimeout alert console_write timers next_timer now sockets alerts]
    in Ht2, Hn2, Hnow2, Hl2, Ha2.
  rewrite <- app_assoc in Ht2. cbn [app] in Ht2. fold n in Ht2, Hn2.
  clear E2. clearbody s2.
  split; [exact Ht2|]. split; [exact Ha2|]. split; [exact Hl2|].
  (* five seconds later the first timeout runs, and then the second *)
  assert (E3 : s3 = connectWebSocket (with_timers (timers s)
                      (connectWebSocket
                         (with_timers (timers s ++ [mkTimer (S n) 5000 (now s + 5000)])
                            (advance 5000 s2))))).
  { subst s3. unfold run. cbn [fold_left].
    change (step s2 (Elapse 5000)) with (advance 5000 s2).
    assert (F1 := fire_behind_fresh (advance 5000 s2) (timers s)
               [mkTimer (S n) 5000 (now s + 5000)] (mkTimer n 5000 (now s + 5000))
               Ht2 Hfresh).
    cbn [timer_id timer_due advance now] in F1. rewrite F1 by lia. clear F1.
    replace (remove_timer n [mkTimer (S n) 5000 (now s + 5000)])
      with [mkTimer (S n) 5000 (now s + 5000)].
    2:{ unfold remove_timer. cbn [List.filter timer_id].
        destruct (Nat.eqb_spec (S n) n); [lia | reflexivity]. }
    set (s' := connectWebSocket _).
    assert (F2 := fire_behind_fresh s' (timers s) []
               (mkTimer (S n) 5000 (now s + 5000)) eq_refl).
    cbn [timer_id timer_due] in F2. rewrite F2.
    - now rewrite app_nil_r.
    - eapply Forall_impl; [exact Hfresh | cbn beta; intros; fold n; lia].
    - subst s'. cbn [connectWebSocket new_WebSocket with_timers advance now]. lia. }
  clearbody s3. subst s3. unfold ready.
  cbn [connectWebSocket new_WebSocket with_timers advance sockets socket timers].
  rewrite !length_app, Hl2. cbn [length].
  split; [lia|]. split; [|split; [|split; [|reflexivity]]].
  - rewrite lookup_app_l by (rewrite length_app; cbn [length]; lia).
    rewrite lookup_app_r by lia. rewrite Hl2, Nat.sub_diag. reflexivity.
  - rewrite lookup_app_r by (rewrite length_app; cbn [length]; lia).
    rewrite length_app, Hl2. cbn [length].
    replace (S (length (sockets s)) - (length (sockets s) + 1))%nat with 0%nat by lia.
    reflexivity.
  - f_equal. lia.
Qed.

Lemma mount_timers_fresh : timers_fresh mount.
Proof. constructor. Qed.

Lemma error_then_close_reconnects_twice_witness :
  let s2 := run mount [WsError 0%nat "net::ERR_CONNECTION_REFUSED"; WsClose 0%nat] in
  timers s2 = [mkTimer 0 5000 5000; mkTimer 1 5000 5000] /\
  length (sockets (run s2 [Elapse 5000; TimerFires 0; TimerFires 1])) = 3%nat.
Proof.
  pose proof (error_then_close_reconnects_twice mount 0%nat CONNECTING
                "net::ERR_CONNECTION_REFUSED" mount_timers_fresh eq_refl
                ltac:(discriminate)) as (Ht & _ & _ & Hl & _).
  split; [exact Ht | exact Hl].
Defined.

(** ** Teardown *)

(** X14: what the cleanup does do: tearing down a mounted view calls
    [close()] once on the connection [socket] refers to and on no
    other, leaves every pending timeout in place, and a second teardown
    does nothing. *)
Lemma unmount_closes_current (s : State) (sid : nat) (w : WebSocket) :
  mounted s = true -> socket s = Some sid -> sockets s !! sid = Some w ->
  sockets (step s Unmount) = <[sid := ws_close w]> (sockets s) /\
  timers (step s Unmount) = timers s /\
  mounted (step s Unmount) = false /\
  step (step s Unmount) Unmount = step s Unmount.
Proof.
  intros Hm Hs Hw. simpl. rewrite Hm. unfold cleanup. simpl.
  rewrite Hs, Hw. simpl. repeat split.
Qed.

(** C2: teardown does not stop the reconnect loop.  A timeout pending
    at teardown stays pending and, once run, creates a connection for a
    view that is gone; the close event of the connection that the
    cleanup closed schedules a reconnect of its own; and of two live
    connections the cleanup closes only the one [socket] refers to. *)
Theorem teardown_leaves_reconnect_running :
  (mounted closed_then_unmounted = false /\
   timers closed_then_unmounted = [mkTimer 0 5000 5000] /\
   length (sockets closed_then_unmounted) = 1%nat /\
   let after := run closed_then_unmounted [Elapse 4000; TimerFires 0] in
   length (sockets after) = 2%nat /\ ready after 1 = Some CONNECTING) /\
  (mounted unmounted_then_closed = false /\
   timers unmounted_then_closed = [mkTimer 0 5000 5000] /\
   let after := run unmounted_then_closed [Elapse 5000; TimerFires 0] in
   length (sockets after) = 2%nat /\ ready after 1 = Some CONNECTING) /\
  (mounted unmounted_with_two_live = false /\
   sockets unmounted_with_two_live =
     [mkWebSocket updates_url CLOSED 0;
      mkWebSocket updates_url OPEN 0;
      mkWebSocket updates_url CLOSING 1]).
Proof. repeat split. Qed.

(** ** The end-to-end scenario *)

(** The snapshot shows [r1] orange under the low-battery filter; the
    push message that turns it offline keeps it in the list, now red. *)
Example snapshot_then_push :
  let s1 := run mount [WsOpen 0%nat;
                       FetchSettles (Response true "OK" (Some [r1_online_low]));
                       Click "low-battery"] in
  let s2 := step s1 (WsMessage 0%nat (Some [r1_offline_low])) in
  derived s1 = [r1_online_low] /\ row_colors s1 = Ok ["orange"] /\
  derived s2 = [r1_offline_low] /\ row_colors s2 = Ok ["red"].
Proof. repeat split. Qed.

(** * Further properties of the component *)

(** ** More on the derived list *)

Lemma filter_pred_passthrough (mode : string) (r : Robot) :
  mode <> "online" -> mode <> "offline" -> mode <> "low-battery" ->
  filter_pred mode r = true.
Proof.
  intros H2 H3 H4. destruct (String.eqb_spec mode "all") as [->|H1].
  - reflexivity.
  - now apply filter_pred_unknown.
Qed.

Lemma filter_all_true {A} (p : A -> bool) (l : list A) :
  (forall x, p x = true) -> List.filter p l = l.
Proof.
  intros Hp. induction l as [|x l IH]; simpl; [reflexivity|].
  now rewrite Hp, IH.
Qed.

(** X1: in mode "all", and in any mode that is none of "online",
    "offline" and "low-battery", the derived list is FleetState itself:
    same robots, same order, duplicates included. *)
Theorem filteredRobots_passthrough (rs : list Robot) (mode : string)
    (Hon : mode <> "online") (Hoff : mode <> "offline")
    (Hlow : mode <> "low-battery") :
  filteredRobots rs mode = rs.
Proof.
  unfold filteredRobots. apply filter_all_true.
  intros r. now apply filter_pred_passthrough.
Qed.

Lemma filteredRobots_passthrough_witness :
  filteredRobots [r_online; r_low_offline; r_online] "all"
    = [r_online; r_low_offline; r_online] /\
  filteredRobots [r_online; r_low_offline; r_online] "Online"
    = [r_online; r_low_offline; r_online].
Proof.
  split; apply filteredRobots_passthrough; discriminate.
Defined.

(** X2: two filters applied one after the other give the same list in
    either order, namely the robots both modes keep. *)
Theorem filteredRobots_commute (rs : list Robot) (m1 m2 : string) :
  filteredRobots (filteredRobots rs m1) m2
    = filteredRobots (filteredRobots rs m2) m1 /\
  filteredRobots (filteredRobots rs m1) m2
    = List.filter (fun r => filter_pred m1 r && filter_pred m2 r) rs.
Proof.
  unfold filteredRobots. split.
  - induction rs as [|r rs IH]; simpl; [reflexivity|].
    destruct (filter_pred m1 r) eqn:E1, (filter_pred m2 r) eqn:E2; simpl;
      rewrite ?E1, ?E2, IH; reflexivity.
  - induction rs as [|r rs IH]; simpl; [reflexivity|].
    destruct (filter_pred m1 r) eqn:E1; simpl; [|exact IH].
    destruct (filter_pred m2 r); now rewrite IH.
Qed.

Lemma online_not_offline (r : Robot) :
  filter_pred "online" r = true -> filter_pred "offline" r = false.
Proof.
  intros H%filter_pred_online. unfold filter_pred. simpl. now rewrite H.
Qed.

(** X3: no robot is in both the "online" and the "offline" list, so the
    two lists together are never longer than FleetState; they are
    exactly as long when every status is "Online" or "Offline". *)
Theorem online_offline_split (rs : list Robot) :
  filteredRobots (filteredRobots rs "online") "offline" = [] /\
  (length (filteredRobots rs "online") + length (filteredRobots rs "offline")
     <= length rs)%nat /\
  (Forall (fun r => status r = "Online" \/ status r = "Offline") rs ->
   (length (filteredRobots rs "online") + length (filteredRobots rs "offline")
      = length rs)%nat).
Proof.
  unfold filteredRobots. split; [|split].
  - induction rs as [|r rs IH]; simpl; [reflexivity|].
    destruct (filter_pred "online" r) eqn:E; simpl; [|exact IH].
    now rewrite (online_not_offline r E).
  - induction rs as [|r rs IH]; simpl; [lia|].
    destruct (filter_pred "online" r) eqn:E.
    + rewrite (online_not_offline r E). simpl. lia.
    + destruct (filter_pred "offline" r); simpl; lia.
  - intros Hall. induction Hall as [|r rs Hr _ IH]; simpl; [reflexivity|].
    destruct Hr as [Hr|Hr].
    + apply filter_pred_online in Hr as E. rewrite E, (online_not_offline r E).
      simpl. lia.
    + apply filter_pred_offline in Hr as E. rewrite E.
      destruct (filter_pred "online" r) eqn:E'.
      * apply online_not_offline in E'. congruence.
      * simpl. lia.
Qed.

(** ** More on the table and the map *)

Lemma call_toFixed2_Ok (v : value) (str : string) :
  call_toFixed2 v = Ok str -> exists q, v = VNum q /\ str = toFixed2 q.
Proof.
  destruct v; simpl; try discriminate. intros [= <-]. eauto.
Qed.

Lemma table_row_prints (r : Robot) (a b : Q) :
  get_index (location r) 0 = Ok (VNum a) ->
  get_index (location r) 1 = Ok (VNum b) ->
  table_row r =
    Ok (mkRow (id r) (getStatusColor (status r) (battery r))
              (getStatusColor (status r) (battery r)) (id r) (battery r)
              (cpu r) (ram r) (last_updated r) (toFixed2 a, toFixed2 b)).
Proof.
  intros H0 H1. unfold table_row, mbind, result_bind.
  rewrite H0. simpl. rewrite H1. reflexivity.
Qed.

Lemma table_row_Ok_prints (r : Robot) (row : Row) :
  table_row r = Ok row ->
  exists a b, get_index (location r) 0 = Ok (VNum a) /\
              get_index (location r) 1 = Ok (VNum b) /\
              row_location row = (toFixed2 a, toFixed2 b).
Proof.
  unfold table_row, mbind, result_bind.
  destruct (get_index (location r) 0) as [l0|] eqn:E0; [|discriminate].
  destruct (call_toFixed2 l0) as [lat|] eqn:F0; [|discriminate].
  destruct (get_index (location r) 1) as [l1|] eqn:E1; [|discriminate].
  destruct (call_toFixed2 l1) as [lng|] eqn:F1; [|discriminate].
  apply call_toFixed2_Ok in F0 as (a & -> & ->).
  apply call_toFixed2_Ok in F1 as (b & -> & ->).
  intros [= <-]. exists a, b. repeat split.
Qed.


Lemma table_rows_Ok_Forall (shown : list Robot) (rows : list Row) :
  table_rows shown = Ok rows ->
  Forall (fun r => prints_coordinates (location r)) shown /\
  List.map row_id rows = List.map id shown.
Proof.
  unfold table_rows. revert rows.
  induction shown as [|r shown IH]; simpl; intros rows.
  - intros [= <-]. split; [constructor | reflexivity].
  - unfold mbind, result_bind.
    destruct (table_row r) as [row|] eqn:Hrow; [|discriminate].
    destruct (array_map table_row shown) as [rows'|]; [|discriminate].
    intros [= <-]. destruct (IH rows' eq_refl) as [Hall Hids].
    pose proof (table_row_Ok r row Hrow) as (lat & lng & E).
    split.
    + constructor; [|assumption].
      apply table_row_Ok_prints in Hrow as (a & b & H0 & H1 & _).
      exists a, b. now split.
    + simpl. rewrite Hids, E. reflexivity.
Qed.

Lemma table_rows_Forall_Ok (shown : list Robot) :
  Forall (fun r => prints_coordinates (location r)) shown ->
  exists rows, table_rows shown = Ok rows.
Proof.
  unfold table_rows. induction 1 as [|r shown Hr _ [rows IH]]; simpl.
  - eauto.
  - destruct Hr as (a & b & H0 & H1).
    unfold mbind, result_bind.
    rewrite (table_row_prints r a b H0 H1), IH. eauto.
Qed.

(** X5: a render completes exactly when every robot of the derived list
    has a location whose first two entries are numbers; robots that the
    filter hides cannot make it fault.  When it completes, the table
    has the ids of the derived list, in its order, and the map has one
    child (marker or null) for each robot of the derived list. *)
Theorem render_Ok_iff (rs : list Robot) (mode : string) :
  ((exists v, render rs mode = Ok v) <->
   Forall (fun r => prints_coordinates (location r)) (filteredRobots rs mode)) /\
  (forall v, render rs mode = Ok v ->
     List.map row_id (view_rows v) = List.map id (filteredRobots rs mode) /\
     length (view_rows v) = length (filteredRobots rs mode) /\
     view_markers v = List.map map_marker (filteredRobots rs mode)).
Proof.
  assert (Hv : forall v, render rs mode = Ok v ->
            table_rows (filteredRobots rs mode) = Ok (view_rows v) /\
            view_markers v = List.map map_marker (filteredRobots rs mode)).
  { intros v. unfold render, mbind, result_bind.
    destruct (table_rows (filteredRobots rs mode)) as [rows|]; [|discriminate].
    intros [= <-]. split; reflexivity. }
  split; [split|].
  - intros [v Hrender]. apply Hv in Hrender as [Hrows _].
    now apply table_rows_Ok_Forall in Hrows.
  - intros Hall. apply table_rows_Forall_Ok in Hall as [rows Hrows].
    unfold render, mbind, result_bind. rewrite Hrows. eauto.
  - intros v Hrender. apply Hv in Hrender as [Hrows Hm].
    split; [now apply table_rows_Ok_Forall in Hrows|].
    split; [now apply table_rows_length | exact Hm].
Qed.

Lemma plotted_cons (r : Robot) (shown : list Robot) :
  plotted (r :: shown) =
    match map_marker r with
    | Some m => m :: plotted shown
    | None => plotted shown
    end.
Proof. reflexivity. Qed.

(** X6: the markers on the map are those of the robots of the list
    whose location passes the gate, in the order of the list and keyed
    by the robot ids; there are never more markers than robots, while
    the map element has one child per robot. *)
Theorem plotted_spec (shown : list Robot) :
  List.map marker_key (plotted shown)
    = List.map id (List.filter (fun r => location_gate (location r)) shown) /\
  List.map marker_position (plotted shown)
    = List.map location (List.filter (fun r => location_gate (location r)) shown) /\
  (length (plotted shown) <= length shown)%nat /\
  length (map_markers shown) = length shown.
Proof.
  split; [|split; [|split]].
  - induction shown as [|r shown IH]; [reflexivity|].
    rewrite plotted_cons. unfold map_marker at 1. simpl.
    destruct (location_gate (location r)); simpl; now rewrite IH.
  - induction shown as [|r shown IH]; [reflexivity|].
    rewrite plotted_cons. unfold map_marker at 1. simpl.
    destruct (location_gate (location r)); simpl; now rewrite IH.
  - induction shown as [|r shown IH]; [simpl; lia|].
    rewrite plotted_cons. destruct (map_marker r); simpl; lia.
  - unfold map_markers. apply length_map.
Qed.



Lemma getStatusColor_range (st : string) (b : Q) :
  getStatusColor st b = "red" \/ getStatusColor st b = "orange" \/
  getStatusColor st b = "green".
Proof.
  unfold getStatusColor. destruct (String.eqb st "Offline"); [auto|].
  destruct (num_lt b twenty); auto.
Qed.

(** X8: the icon of every marker on the map is one of three fixed
    icons, the red, the orange or the green one, and these three differ
    in their html: nothing a robot record carries ends up in the html
    of an icon other than through the choice among the three colours. *)
Theorem marker_icon_one_of_three :
  (forall r m, map_marker r = Some m ->
     marker_icon m = createCustomIcon "red" \/
     marker_icon m = createCustomIcon "orange" \/
     marker_icon m = createCustomIcon "green") /\
  html (createCustomIcon "red") <> html (createCustomIcon "orange") /\
  html (createCustomIcon "red") <> html (createCustomIcon "green") /\
  html (createCustomIcon "orange") <> html (createCustomIcon "green").
Proof.
  split; [|repeat split; discriminate].
  intros r m Hm. unfold marker_icon. rewrite (map_marker_color r m Hm).
  destruct (getStatusColor_range (status r) (battery r)) as [->|[->| ->]]; auto.
Qed.

(** ** Connections along a trace *)

Lemma list_sum_insert_close (l : list WebSocket) (i : nat) (w w' : WebSocket) (k : nat) :
  l !! i = Some w -> close_calls w' = (close_calls w + k)%nat ->
  list_sum (List.map close_calls (<[i := w']> l))
    = (list_sum (List.map close_calls l) + k)%nat.
Proof.
  revert i. induction l as [|x l IH]; intros i Hi Hw; [discriminate|].
  destruct i as [|i]; simpl in *.
  - injection Hi as ->. lia.
  - rewrite (IH i Hi Hw). lia.
Qed.

Lemma set_readyState_sockets_inv (s : State) (sid : nat) (r : ReadyState) :
  sockets_inv s -> sockets_inv (set_readyState sid r s).
Proof.
  intros (Hurl & Hlen & Hsock & Hclose).
  unfold set_readyState. destruct (sockets s !! sid) as [w|] eqn:Hw.
  - unfold sockets_inv, total_close_calls. simpl.
    rewrite length_insert. repeat split; try assumption.
    + apply Forall_insert; [assumption|]. simpl.
      apply (Forall_lookup_1 _ _ _ _ Hurl Hw).
    + rewrite (list_sum_insert_close _ _ w _ 0%nat Hw) by (simpl; lia).
      unfold total_close_calls in Hclose. lia.
  - repeat split; assumption.
Qed.

Lemma connectWebSocket_sockets_inv (s : State) :
  sockets_inv s -> sockets_inv (connectWebSocket s).
Proof.
  intros (Hurl & Hlen & Hsock & Hclose).
  unfold sockets_inv, total_close_calls. simpl.
  rewrite length_app, map_app, list_sum_app. simpl. repeat split.
  - apply Forall_app. split; [assumption | now constructor].
  - lia.
  - f_equal. lia.
  - unfold total_close_calls in Hclose. lia.
Qed.

Lemma cleanup_sockets_inv (s : State) :
  sockets_inv s -> mounted s = true -> sockets_inv (cleanup (unmounted s)).
Proof.
  intros (Hurl & Hlen & Hsock & Hclose) Hm. rewrite Hm in Hclose.
  unfold cleanup. simpl. rewrite Hsock.
  destruct (sockets s !! (length (sockets s) - 1)%nat) as [w|] eqn:Hw.
  - unfold sockets_inv, total_close_calls. simpl.
    rewrite length_insert. repeat split; try assumption.
    + apply Forall_insert; [assumption|].
      pose proof (Forall_lookup_1 _ _ _ _ Hurl Hw) as Hu.
      unfold ws_close. destruct (readyState w); exact Hu.
    + rewrite (list_sum_insert_close _ _ w _ 1%nat Hw).
      * unfold total_close_calls in Hclose. lia.
      * unfold ws_close. destruct (readyState w); simpl; lia.
  - apply lookup_ge_None in Hw. lia.
Qed.

(** The invariant transfers to a state with the same connections. *)
Lemma sockets_inv_same (s s' : State) :
  sockets s' = sockets s -> socket s' = socket s -> mounted s' = mounted s ->
  sockets_inv s -> sockets_inv s'.
Proof.
  unfold sockets_inv, total_close_calls. intros -> -> ->. tauto.
Qed.

Lemma step_sockets_inv (s : State) (e : Event) :
  sockets_inv s -> sockets_inv (step s e).
Proof.
  intros H. destruct e as [o|sid|sid data|sid detail|sid|ms|tid|mode|]; simpl.
  - destruct (fetch_pending s); [|assumption].
    apply (sockets_inv_same s); [| | |assumption];
      destruct o as [?|[|] ? [?|]]; reflexivity.
  - destruct (ready s sid) as [[| | |]|]; try assumption.
    now apply set_readyState_sockets_inv.
  - destruct (ready s sid) as [[| | |]|]; try assumption.
    destruct data; assumption.
  - destruct (ready s sid) as [[| | |]|]; try assumption;
      now apply (sockets_inv_same s).
  - destruct (ready s sid) as [[| | |]|]; try assumption;
      (eapply sockets_inv_same;
       [ | | | apply (set_readyState_sockets_inv s sid CLOSED H)]; reflexivity).
  - now apply (sockets_inv_same s).
  - destruct (find_timer tid (timers s)) as [t|]; [|assumption].
    destruct (timer_due t <=? now s)%Z; [|assumption].
    apply connectWebSocket_sockets_inv. now apply (sockets_inv_same s).
  - destruct (mounted s); [|assumption]. now apply (sockets_inv_same s).
  - destruct (mounted s) eqn:Hm; [|assumption].
    now apply cleanup_sockets_inv.
Qed.

Lemma mount_sockets_inv : sockets_inv mount.
Proof.
  unfold sockets_inv. repeat split; try reflexivity.
  - repeat constructor.
  - simpl. lia.
Qed.

Lemma reachable_sockets_inv (t : list Event) : sockets_inv (run mount t).
Proof. apply run_invariant; [exact step_sockets_inv | exact mount_sockets_inv]. Qed.

Lemma step_sockets_length (s : State) (e : Event) :
  (length (sockets s) <= length (sockets (step s e)))%nat.
Proof.
  destruct e as [o|sid|sid data|sid detail|sid|ms|tid|mode|]; simpl.
  - destruct (fetch_pending s); [|lia].
    destruct o as [?|[|] ? [?|]]; simpl; lia.
  - destruct (ready s sid) as [[| | |]|]; try lia.
    rewrite ready_set_readyState_length. lia.
  - destruct (ready s sid) as [[| | |]|]; try lia. destruct data; simpl; lia.
  - destruct (ready s sid) as [[| | |]|]; simpl; lia.
  - destruct (ready s sid) as [[| | |]|]; simpl;
      rewrite ?ready_set_readyState_length; lia.
  - simpl. lia.
  - destruct (find_timer tid (timers s)) as [t|]; [|lia].
    destruct (timer_due t <=? now s)%Z; [|lia].
    simpl. rewrite length_app. simpl. lia.
  - destruct (mounted s); simpl; lia.
  - destruct (mounted s); [|lia]. unfold cleanup. simpl.
    destruct (socket s) as [sid|]; [|simpl; lia].
    destruct (sockets s !! sid); simpl; rewrite ?length_insert; lia.
Qed.

Lemma run_sockets_length (t : list Event) (s : State) :
  (length (sockets s) <= length (sockets (run s t)))%nat.
Proof.
  revert s. induction t as [|e t IH]; intros s; [simpl; lia|].
  rewrite run_cons. etransitivity; [apply step_sockets_length | apply IH].
Qed.

(** X9: every connection the component ever creates targets the update
    endpoint, and a connection object, once created, is never dropped
    from the page: along any continuation of a trace the number of
    connections does not decrease. *)
Theorem connections_target_updates (t t' : list Event) :
  Forall (fun w => ws_url w = updates_url) (sockets (run mount t)) /\
  (1 <= length (sockets (run mount t)))%nat /\
  (length (sockets (run mount t)) <= length (sockets (run mount (t ++ t'))))%nat.
Proof.
  destruct (reachable_sockets_inv t) as (Hurl & Hlen & _).
  split; [assumption|]. split; [lia|].
  rewrite run_app. apply run_sockets_length.
Qed.

(** X10: in every state reached from mount, the [socket] variable
    refers to the connection created last; every older connection is
    out of the reach of the cleanup. *)
Theorem socket_is_newest (t : list Event) :
  socket (run mount t) = Some (length (sockets (run mount t)) - 1)%nat /\
  is_Some (ready (run mount t) (length (sockets (run mount t)) - 1)%nat).
Proof.
  destruct (reachable_sockets_inv t) as (_ & Hlen & Hsock & _).
  split; [assumption|].
  unfold ready. destruct (lookup_lt_is_Some_2 (sockets (run mount t))
    (length (sockets (run mount t)) - 1)%nat ltac:(lia)) as [w ->].
  simpl. eauto.
Qed.

(** X11: [close()] is called by the teardown only: while the view is
    up no connection has ever been closed by the component, and once it
    is gone exactly one call has been made in total, however many
    connections were created before or are created after. *)
Theorem close_called_by_teardown_only (t : list Event) :
  total_close_calls (run mount t)
    = (if mounted (run mount t) then 0%nat else 1%nat).
Proof. now destruct (reachable_sockets_inv t) as (_ & _ & _ & H). Qed.

(** ** Timeouts along a trace *)

Lemma remove_timer_notin (ts : list Timer) (tid : nat) :
  ~ In tid (List.map timer_id ts) -> remove_timer tid ts = ts.
Proof.
  unfold remove_timer. induction ts as [|x ts IH]; simpl; [reflexivity|].
  intros Hn. destruct (Nat.eqb_spec (timer_id x) tid) as [E|E]; simpl.
  - exfalso. apply Hn. now left.
  - rewrite IH; [reflexivity|]. intros K. apply Hn. now right.
Qed.

Lemma remove_timer_In (ts : list Timer) (tid : nat) (x : Timer) :
  In x (remove_timer tid ts) -> In x ts.
Proof. unfold remove_timer. intros H%filter_In. tauto. Qed.

Lemma remove_timer_NoDup (ts : list Timer) (tid : nat) :
  List.NoDup (List.map timer_id ts) ->
  List.NoDup (List.map timer_id (remove_timer tid ts)).
Proof.
  induction ts as [|x ts IH]; simpl; [constructor|].
  intros [Hx Hts]%List.NoDup_cons_iff.
  destruct (negb (timer_id x =? tid)%nat); simpl; [|now apply IH].
  apply List.NoDup_cons_iff. split; [|now apply IH].
  intros (y & Hy & Hin)%in_map_iff. apply Hx.
  apply in_map_iff. exists y. split; [assumption|].
  now apply (remove_timer_In ts tid).
Qed.

(** Running a timeout takes exactly one away. *)
Lemma remove_timer_length (ts : list Timer) (tid : nat) (t : Timer) :
  find_timer tid ts = Some t -> List.NoDup (List.map timer_id ts) ->
  S (length (remove_timer tid ts)) = length ts.
Proof.
  unfold find_timer. induction ts as [|x ts IH]; simpl; [discriminate|].
  intros Hfind [Hx Hts]%List.NoDup_cons_iff.
  destruct (Nat.eqb_spec (timer_id x) tid) as [E|E]; simpl.
  - rewrite E in Hx. fold (remove_timer tid ts).
    now rewrite remove_timer_notin.
  - f_equal. now apply IH.
Qed.

Lemma timers_snoc_NoDup (ts : list Timer) (t : Timer) (n : nat) :
  Forall (fun x => (timer_id x < n)%nat) ts -> timer_id t = n ->
  List.NoDup (List.map timer_id ts) ->
  List.NoDup (List.map timer_id (ts ++ [t])).
Proof.
  intros Hfresh Ht. induction ts as [|x ts IH]; simpl.
  - intros _. repeat constructor. simpl. tauto.
  - intros [Hx Hts]%List.NoDup_cons_iff.
    apply Forall_cons in Hfresh as [Hxn Hfresh].
    apply List.NoDup_cons_iff. split; [|now apply IH].
    rewrite map_app, in_app_iff. simpl. intros [K|[K|[]]]; [tauto | lia].
Qed.

Lemma ws_logged_snoc (c : list LogEntry) (l : LogEntry) :
  length (List.filter is_ws_entry (c ++ [l]))
    = (length (List.filter is_ws_entry c) + (if is_ws_entry l then 1 else 0))%nat.
Proof.
  rewrite List.filter_app, length_app. simpl.
  destruct (is_ws_entry l); reflexivity.
Qed.

(** The handlers that set a timeout keep the invariant. *)
Lemma setTimeout_timers_inv (s s0 : State) (l : LogEntry) :
  timers_inv s -> is_ws_entry l = true ->
  timers s0 = timers s -> next_timer s0 = next_timer s ->
  length (sockets s0) = length (sockets s) ->
  console s0 = console s ++ [l] ->
  timers_inv (setTimeout 5000 s0).
Proof.
  intros (Hfresh & Hnd & Hnext & Hcount) Hl Ht Hn Hs Hc.
  unfold timers_inv, timers_fresh, ws_logged in *. simpl.
  rewrite Ht, Hn, Hs, Hc, ws_logged_snoc, Hl, length_app. simpl.
  repeat split.
  - apply Forall_app. split.
    + eapply Forall_impl; [exact Hfresh|]. simpl. intros; lia.
    + repeat constructor.
  - now apply (timers_snoc_NoDup _ _ (next_timer s)).
  - lia.
  - lia.
Qed.

(** So do the steps that leave timeouts and connections alone and
    write no line of the channel to the console. *)
Lemma timers_inv_same (s s' : State) :
  timers s' = timers s -> next_timer s' = next_timer s ->
  length (sockets s') = length (sockets s) ->
  ws_logged s' = ws_logged s ->
  timers_inv s -> timers_inv s'.
Proof.
  unfold timers_inv, timers_fresh. intros -> -> -> ->. tauto.
Qed.

Lemma fire_timers_inv (s : State) (tid : nat) (t : Timer) :
  timers_inv s -> find_timer tid (timers s) = Some t ->
  timers_inv (connectWebSocket (with_timers (remove_timer tid (timers s)) s)).
Proof.
  intros (Hfresh & Hnd & Hnext & Hcount) Hfind.
  pose proof (remove_timer_length _ _ _ Hfind Hnd) as Hlen.
  unfold timers_inv, timers_fresh, ws_logged in *. simpl.
  rewrite length_app. simpl. repeat split.
  - now apply remove_timer_Forall.
  - now apply remove_timer_NoDup.
  - assumption.
  - lia.
Qed.

Lemma step_timers_inv (s : State) (e : Event) :
  timers_inv s -> timers_inv (step s e).
Proof.
  intros H. destruct e as [o|sid|sid data|sid detail|sid|ms|tid|mode|]; simpl.
  - destruct (fetch_pending s); [|assumption].
    apply (timers_inv_same s); [| | | |assumption];
      destruct o as [?|[|] ? [?|]]; try reflexivity;
      unfold ws_logged; simpl; rewrite ws_logged_snoc; simpl; lia.
  - destruct (ready s sid) as [[| | |]|]; try assumption.
    apply (timers_inv_same s); try assumption;
      unfold set_readyState, ws_logged;
      destruct (sockets s !! sid); simpl; rewrite ?length_insert; reflexivity.
  - destruct (ready s sid) as [[| | |]|]; try assumption.
    destruct data; assumption.
  - destruct (ready s sid) as [[| | |]|]; try assumption;
      (apply (setTimeout_timers_inv s _
                (mkLog ErrorLevel "WebSocket error:" detail) H); reflexivity).
  - destruct (ready s sid) as [[| | |]|]; try assumption;
      (apply (setTimeout_timers_inv s _
                (mkLog LogLevel "WebSocket closed. Reconnecting in 5 seconds..." "") H);
       try reflexivity;
       unfold set_readyState; destruct (sockets s !! sid); simpl;
       rewrite ?length_insert; reflexivity).
  - now apply (timers_inv_same s).
  - destruct (find_timer tid (timers s)) as [t|] eqn:Hfind; [|assumption].
    destruct (timer_due t <=? now s)%Z; [|assumption].
    now apply (fire_timers_inv s tid t).
  - destruct (mounted s); [|assumption]. now apply (timers_inv_same s).
  - destruct (mounted s); [|assumption].
    apply (timers_inv_same s); try assumption;
      unfold cleanup, ws_logged; simpl;
      destruct (socket s) as [k|]; try reflexivity;
      destruct (sockets s !! k); simpl; rewrite ?length_insert; reflexivity.
Qed.

Lemma reachable_timers_inv (t : list Event) : timers_inv (run mount t).
Proof.
  apply run_invariant; [exact step_timers_inv|].
  unfold timers_inv, timers_fresh. repeat split; constructor.
Qed.

(** X12: connections are created by timeouts only, one each, and
    timeouts are set by the error and close handlers only, one each:
    in every state reached from mount, the connections created so far
    and the timeouts still pending are together one more than the
    lines that [onerror] and [onclose] wrote to the console. *)
Theorem connections_conserved (t : list Event) :
  (length (sockets (run mount t)) + length (timers (run mount t))
     = S (ws_logged (run mount t)))%nat /\
  List.NoDup (List.map timer_id (timers (run mount t))).
Proof.
  destruct (reachable_timers_inv t) as (_ & Hnd & Hnext & Hcount).
  split; [lia | assumption].
Qed.

(** X13: a reconnect is never attempted early.  After the close event
    of a live connection, running the timeout it set has no effect
    before 5000 ms have passed, and creates exactly one connection once
    they have. *)
Theorem no_reconnect_before_delay
    (s : State) (sid : nat) (r : ReadyState) (ms : Z)
    (Hfresh : timers_fresh s)
    (Hlive : ready s sid = Some r) (Hr : r <> CLOSED) :
  let s' := step s (WsClose sid) in
  let after := run s' [Elapse ms; TimerFires (next_timer s)] in
  (ms < 5000 -> after = advance ms s') /\
  (5000 <= ms -> length (sockets after) = S (length (sockets s)) /\
                 timers after = timers s).
Proof.
  intros s' after.
  destruct (onclose_fields s sid) as (Ht & Hn & Hnow & _ & Hl).
  assert (Es' : s' = onclose (set_readyState sid CLOSED s))
    by (subst s'; now apply (step_close_live s sid r)).
  rewrite <- Es' in Ht, Hn, Hnow, Hl. clear Es'. clearbody s'.
  assert (Hfind : find_timer (next_timer s) (timers (advance ms s'))
                  = Some (mkTimer (next_timer s) 5000 (now s + 5000))).
  { simpl. rewrite Ht. now apply find_timer_fresh. }
  subst after. unfold run. cbn [fold_left].
  change (step s' (Elapse ms)) with (advance ms s'). split; intros Hms.
  - apply (step_timer_early _ (mkTimer (next_timer s) 5000 (now s + 5000)) Hfind).
    simpl. lia.
  - pose proof (step_timer_due _ (mkTimer (next_timer s) 5000 (now s + 5000)) Hfind)
      as Hfire.
    cbn [timer_id timer_due] in Hfire. rewrite Hfire by (simpl; lia).
    simpl. rewrite length_app, Hl, Ht, remove_timer_app. simpl.
    rewrite Nat.eqb_refl. simpl. rewrite app_nil_r.
    split; [lia | now apply remove_timer_fresh].
Qed.

Lemma no_reconnect_before_delay_witness :
  length (sockets (run (step mount (WsClose 0%nat))
                       [Elapse 4999; TimerFires 0])) = 1%nat /\
  length (sockets (run (step mount (WsClose 0%nat))
                       [Elapse 5000; TimerFires 0])) = 2%nat.
Proof.
  split.
  - exact (f_equal (fun st => length (sockets st))
             (proj1 (no_reconnect_before_delay mount 0%nat CONNECTING 4999
                       mount_timers_fresh eq_refl ltac:(discriminate))
                    ltac:(lia))).
  - exact (proj1 (proj2 (no_reconnect_before_delay mount 0%nat CONNECTING 5000
                           mount_timers_fresh eq_refl ltac:(discriminate))
                        ltac:(lia))).
Defined.

(** ** The filter mode along a trace *)

Lemma step_filter_not_click (s : State) (e : Event) :
  is_click e = false -> filter (step s e) = filter s.
Proof. destruct e; step_cases; simpl; try reflexivity; discriminate. Qed.

Lemma step_filter_click (s : State) (mode : string) :
  filter (step s (Click mode)) = (if mounted s then mode else filter s).
Proof. simpl. destruct (mounted s); reflexivity. Qed.

(** X15: only a click changes FilterMode: no network event, timeout or
    teardown touches it, and along a trace without clicks it is still
    "all"; a click on a mounted view sets it to the mode clicked. *)
Theorem filter_changes_only_by_click :
  (forall s e, is_click e = false -> filter (step s e) = filter s) /\
  (forall t, forallb (fun e => negb (is_click e)) t = true ->
     filter (run mount t) = "all") /\
  (forall s mode, mounted s = true -> filter (step s (Click mode)) = mode).
Proof.
  split; [exact step_filter_not_click|]. split.
  - intros t. change "all" with (filter mount). generalize mount.
    induction t as [|e t IH]; intros s Ht; [reflexivity|].
    simpl in Ht. apply andb_prop in Ht as [He Ht].
    rewrite run_cons, IH by assumption.
    apply step_filter_not_click. now destruct (is_click e).
  - intros s mode Hm. now rewrite step_filter_click, Hm.
Qed.

(** X16: when every click is a click on one of the four buttons,
    FilterMode is one of "all", "online", "offline" and "low-battery"
    in every state reached from mount, so the last [return true] of the
    filter callback is never reached. *)
Theorem filter_is_a_button_mode (t : list Event)
    (Hpage : Forall from_page t) :
  In (filter (run mount t)) button_modes.
Proof.
  assert (Hinit : In (filter mount) button_modes) by (left; reflexivity).
  revert Hinit. generalize mount.
  induction Hpage as [|e t He _ IH]; intros s Hs; [exact Hs|].
  rewrite run_cons. apply IH.
  destruct e as [o|sid|sid data|sid detail|sid|ms|tid|mode|];
    try (rewrite step_filter_not_click by reflexivity; exact Hs).
  rewrite step_filter_click. destruct (mounted s); [exact He | exact Hs].
Qed.

Lemma filter_is_a_button_mode_witness :
  In (filter (run mount [Click "online"; WsOpen 0%nat; Click "low-battery"]))
     button_modes.
Proof.
  apply filter_is_a_button_mode.
  repeat constructor; simpl; tauto.
Defined.

(** ** The snapshot and the push messages *)

(** X17: how the pending snapshot request can end.  A response that is
    ok and whose body parses installs the body as FleetState and tells
    nobody; every other end, a body that does not parse included, is
    caught: FleetState stays, one alert is raised and one line is
    logged.  In no case is a connection or a timeout touched. *)
Theorem snapshot_outcome (s : State) (o : FetchOutcome)
    (Hpending : fetch_pending s = true) :
  let s' := step s (FetchSettles o) in
  fetch_pending s' = false /\
  sockets s' = sockets s /\ timers s' = timers s /\
  match o with
  | Response true _ (Some data) =>
      robots s' = data /\ alerts s' = alerts s /\ console s' = console s
  | _ =>
      robots s' = robots s /\
      alerts s' = alerts s ++ [fetch_failure_alert] /\
      length (console s') = S (length (console s))
  end.
Proof.
  simpl. rewrite Hpending.
  destruct o as [detail|[|] statusText [data|]]; simpl;
    rewrite ?length_app; simpl; repeat split; lia.
Qed.

Lemma snapshot_outcome_witness :
  let s' := step mount (FetchSettles (Response true "OK" None)) in
  robots s' = [] /\ alerts s' = [fetch_failure_alert].
Proof.
  pose proof (snapshot_outcome mount (Response true "OK" None) eq_refl)
    as (_ & _ & _ & Hr & Ha & _).
  split; [exact Hr | exact Ha].
Defined.



(** ** Alerts along a trace *)

Lemma ws_errors_logged_snoc (c : list LogEntry) (l : LogEntry) :
  length (List.filter is_ws_error_entry (c ++ [l]))
    = (length (List.filter is_ws_error_entry c)
       + (if is_ws_error_entry l then 1 else 0))%nat.
Proof.
  rewrite List.filter_app, length_app. simpl.
  destruct (is_ws_error_entry l); reflexivity.
Qed.

Lemma fetch_alerts_snoc (a : list string) (msg : string) :
  count_occ string_dec (a ++ [msg]) fetch_failure_alert
    = (count_occ string_dec a fetch_failure_alert
       + (if string_dec msg fetch_failure_alert then 1 else 0))%nat.
Proof.
  rewrite count_occ_app. simpl.
  destruct (string_dec msg fetch_failure_alert); reflexivity.
Qed.

Lemma alerts_inv_same (s s' : State) :
  alerts s' = alerts s -> fetch_pending s' = fetch_pending s ->
  ws_errors_logged s' = ws_errors_logged s ->
  alerts_inv s -> alerts_inv s'.
Proof.
  unfold alerts_inv, fetch_alerts. intros -> -> ->. tauto.
Qed.

Lemma step_alerts_inv (s : State) (e : Event) :
  alerts_inv s -> alerts_inv (step s e).
Proof.
  intros H. destruct e as [o|sid|sid data|sid detail|sid|ms|tid|mode|]; simpl.
  - destruct (fetch_pending s) eqn:Hp; [|assumption].
    destruct H as [Hlen Hf]. rewrite Hp in Hf.
    unfold alerts_inv, fetch_alerts, ws_errors_logged in *.
    destruct o as [?|[|] ? [?|]]; simpl;
      rewrite ?length_app, ?ws_errors_logged_snoc, ?fetch_alerts_snoc; simpl;
      try (destruct (string_dec fetch_failure_alert fetch_failure_alert);
           [|contradiction]);
      lia.
  - destruct (ready s sid) as [[| | |]|]; try assumption;
      (apply (alerts_inv_same s); [| | |assumption];
       unfold set_readyState, ws_errors_logged;
       destruct (sockets s !! sid); reflexivity).
  - destruct (ready s sid) as [[| | |]|]; try assumption.
    destruct data; assumption.
  - assert (K : alerts_inv (onerror detail s)).
    { destruct H as [Hlen Hf].
      unfold alerts_inv, fetch_alerts, ws_errors_logged in *. simpl.
      rewrite length_app, ws_errors_logged_snoc, fetch_alerts_snoc. simpl.
      destruct (string_dec ws_failure_alert fetch_failure_alert); [discriminate|].
      rewrite Nat.add_0_r. split; [lia | exact Hf]. }
    destruct (ready s sid) as [[| | |]|]; assumption.
  - destruct (ready s sid) as [[| | |]|]; try assumption;
      (apply (alerts_inv_same s); [| | |assumption];
       unfold set_readyState, ws_errors_logged;
       destruct (sockets s !! sid); simpl;
       rewrite ?ws_errors_logged_snoc; simpl; lia || reflexivity).
  - now apply (alerts_inv_same s).
  - destruct (find_timer tid (timers s)) as [t|]; [|assumption].
    destruct (timer_due t <=? now s)%Z; [|assumption].
    now apply (alerts_inv_same s).
  - destruct (mounted s); [|assumption]. now apply (alerts_inv_same s).
  - destruct (mounted s); [|assumption].
    apply (alerts_inv_same s); [| | |assumption];
      unfold cleanup, ws_errors_logged; simpl;
      destruct (socket s) as [k|]; try reflexivity;
      destruct (sockets s !! k); reflexivity.
Qed.

Lemma reachable_alerts_inv (t : list Event) : alerts_inv (run mount t).
Proof.
  apply run_invariant; [exact step_alerts_inv|]. split; reflexivity.
Qed.

(** X19: every alert the user sees is accounted for: in every state
    reached from mount there is one alert per error event that
    [onerror] logged, plus at most one alert of the snapshot loader,
    and none of the latter while the request is pending; close events,
    messages and timeouts alert nothing. *)
Theorem alerts_accounted (t : list Event) :
  length (alerts (run mount t))
    = (ws_errors_logged (run mount t) + fetch_alerts (run mount t))%nat /\
  (fetch_alerts (run mount t) <= 1)%nat /\
  (fetch_pending (run mount t) = true -> fetch_alerts (run mount t) = 0%nat).
Proof.
  destruct (reachable_alerts_inv t) as [Hlen Hf]. split; [exact Hlen|].
  destruct (fetch_pending (run mount t)); split; try lia; try discriminate.
Qed.

(** ** Teardown of an open connection *)

Lemma unmount_closes_current_witness :
  sockets (step (step mount (WsOpen 0%nat)) Unmount)
    = [mkWebSocket updates_url CLOSING 1].
Proof.
  exact (proj1 (unmount_closes_current (step mount (WsOpen 0%nat)) 0%nat
                  (mkWebSocket updates_url OPEN 0) eq_refl eq_refl eq_refl)).
Defined.
